(** * heart-beatz: the MIDI decoder and the note/sustain state machine

    A shallow embedding of [MidiManager.cpp] (with the constants of
    [MidiSpec.h]) and the properties of its sustain-pedal bookkeeping,
    followed by the synthesizer wrapper of [SynthManager.cpp].

    - [uint8_t], [int], [ssize_t] values are [Z]; a [uint8_t] read keeps the
      source's [& 0xFF] mask.  [size_t] is [N].
    - [std::set<int>] is [gset Z]; a range-for over it visits the elements in
      ascending order ([ascending]).
    - Calls that leave the class (the four [SynthManager] methods, the JNI
      callback, [usleep]) are recorded, in program order, in a log of
      [Effect]s.  A member function is a command of the monad [Cmd]: it maps
      the object's fields to a result, the new fields and the log. *)

From Stdlib Require Import ZArith QArith Lia.
From stdpp Require Import base numbers list strings pretty sorting gmap sets.

Local Open Scope Z_scope.
#[local] Set Warnings "-clear-no-such-hyp".

(** ** MidiSpec.h *)

Definition kMIDIChanCmd_NoteOff       : Z := 0x08.
Definition kMIDIChanCmd_NoteOn        : Z := 0x09.
Definition kMIDIChanCmd_KeyPress      : Z := 0x0A.
Definition kMIDIChanCmd_Control       : Z := 0x0B.
Definition kMIDIChanCmd_ProgramChange : Z := 0x0C.
Definition kMIDIChanCmd_ChannelPress  : Z := 0x0D.
Definition kMIDIChanCmd_PitchWheel    : Z := 0x0E.
Definition kMIDIControl_Sustain       : Z := 0x40.
Definition kMIDIControl_Sustain_level : Z := 64.
Definition kMIDIControl_Reverb        : Z := 0x5B.
Definition kMIDISysCmdChan            : Z := 0xF0.

(** [AMIDI_OPCODE_DATA] of the NDK header [amidi/AMidi.h]. *)
Definition AMIDI_OPCODE_DATA : Z := 1.

(** ** The object and its observable calls *)

(** The fields of [class MidiManager] that the decoder and the polling
    thread read or write. *)
Record MidiManager : Type := mkMidiManager {
  reading      : bool;
  sustain      : bool;
  playNotes    : gset Z;
  sustainNotes : gset Z
}.

(** Calls leaving the class, as the source makes them. *)
Inductive Effect : Type :=
| SynthNoteOn  (note velocity : Z)       (* synthManager->noteOn(note, velocity) *)
| SynthNoteOff (note : Z)                (* synthManager->noteOff(note) *)
| SynthReverb  (level : Z)               (* synthManager->reverb(level) *)
| SynthSendCC  (controller value : Z)    (* synthManager->sendCC(controller, value) *)
| Callback     (msg : string)            (* sendToCallback(oss) *)
| Usleep       (usec : Z).               (* usleep(usec) *)

Global Instance Effect_eq_dec : EqDecision Effect.
Proof. solve_decision. Defined.

Definition isEngineCall (e : Effect) : bool :=
  match e with
  | SynthNoteOn _ _ | SynthNoteOff _ | SynthReverb _ | SynthSendCC _ _ => true
  | Callback _ | Usleep _ => false
  end.

Definition isCallback (e : Effect) : bool :=
  match e with Callback _ => true | _ => false end.

(** The calls made to the synthesis engine, in order. *)
Definition engineCalls (log : list Effect) : list Effect :=
  filter (λ e, isEngineCall e = true) log.

(** The trace lines handed to the Java callback, in order. *)
Definition traces (log : list Effect) : list Effect :=
  filter (λ e, isCallback e = true) log.

(** How many times the engine was asked to stop note [n]. *)
Definition noteOffCount (n : Z) (log : list Effect) : nat :=
  length (filter (λ e, e = SynthNoteOff n) log).

(** ** Commands: state passing with a log *)

Definition Cmd (A : Type) : Type := MidiManager → A * MidiManager * list Effect.

Definition ret {A} (a : A) : Cmd A := λ m, (a, m, []).
Definition bind {A B} (c : Cmd A) (k : A → Cmd B) : Cmd B := λ m,
  let '(a, m1, log1) := c m in
  let '(b, m2, log2) := k a m1 in
  (b, m2, log1 ++ log2).

Declare Scope cmd_scope.
Delimit Scope cmd_scope with cmd.
Bind Scope cmd_scope with Cmd.
Notation "x ← c ; k" := (bind c (λ x, k))
  (at level 20, c at level 100, k at level 200, only parsing) : cmd_scope.
Notation "c ;; k" := (bind c (λ _, k))
  (at level 100, k at level 200, only parsing, right associativity) : cmd_scope.
Local Open Scope cmd_scope.

Definition skip : Cmd () := ret ().
Definition emit (e : Effect) : Cmd () := λ m, ((), m, [e]).
Definition get {A} (f : MidiManager → A) : Cmd A := λ m, (f m, m, []).
Definition modify (f : MidiManager → MidiManager) : Cmd () := λ m, ((), f m, []).

Definition stateAfter {A} (c : Cmd A) (m : MidiManager) : MidiManager := (c m).1.2.
Definition logOf {A} (c : Cmd A) (m : MidiManager) : list Effect := (c m).2.

Definition set_reading (b : bool) (m : MidiManager) : MidiManager :=
  mkMidiManager b (sustain m) (playNotes m) (sustainNotes m).
Definition set_sustain (b : bool) (m : MidiManager) : MidiManager :=
  mkMidiManager (reading m) b (playNotes m) (sustainNotes m).
Definition set_playNotes (s : gset Z) (m : MidiManager) : MidiManager :=
  mkMidiManager (reading m) (sustain m) s (sustainNotes m).
Definition set_sustainNotes (s : gset Z) (m : MidiManager) : MidiManager :=
  mkMidiManager (reading m) (sustain m) (playNotes m) s.

(** [std::set<int>] iterates in ascending order. *)
Definition ascending (s : gset Z) : list Z := merge_sort Z.le (elements s).

(** [for (const auto n : l) body(n)] *)
Fixpoint forEach (l : list Z) (body : Z → Cmd ()) : Cmd () :=
  match l with
  | [] => skip
  | n :: rest => body n ;; forEach rest body
  end.

(** [data[i]] in a [uint8_t] buffer; the receive buffer of the polling thread
    has [kMidiMaxBytesToReceive] entries, and a read past the bytes a model
    buffer lists gives 0. *)
Definition byteAt (data : list Z) (i : nat) : Z := default 0 (data !! i).

(** [sendToCallback(oss)] where [oss] holds [msg]; the [const char*] overload
    returns at once on an empty string. *)
Definition sendToCallback (msg : string) : Cmd () :=
  if decide (msg = "") then skip else emit (Callback msg).

(** [oss << (int)v] *)
Definition dec (v : Z) : string := pretty v.

(** ** MidiManager::parseMidiCmdControl *)

Definition parseMidiCmdControl (controller value : Z) : Cmd () :=
  if controller =? kMIDIControl_Sustain then
    if value >=? kMIDIControl_Sustain_level then
      sendToCallback ("Sustain ON: level: " +:+ dec value) ;;
      modify (set_sustain true) ;;
      play ← get playNotes ;
      if decide (play = ∅) then skip
      else modify (λ m, set_sustainNotes (sustainNotes m ∪ play) m)
    else
      sendToCallback ("Sustain OFF: level: " +:+ dec value) ;;
      modify (set_sustain false) ;;
      (* Stop all sustained notes *)
      sus ← get sustainNotes ;
      forEach (ascending sus) (λ n,
        play ← get playNotes ;
        if decide (n ∈ play) then skip else emit (SynthNoteOff n)) ;;
      modify (set_sustainNotes ∅)
  else if controller =? kMIDIControl_Reverb then
    sendToCallback ("Reverb: level: " +:+ dec value) ;;
    emit (SynthReverb value)
  else
    sendToCallback ("Unparsed command: controller: " +:+ dec controller
                    +:+ " value: " +:+ dec value) ;;
    emit (SynthSendCC controller value).

(** ** MidiManager::parseMidiData *)

(** The case labels of the [switch] in [parseMidiData]. *)
Inductive SwitchCase : Type :=
| CaseNoteOff | CaseNoteOn | CaseControl | CaseKeyPress
| CaseProgramChange | CaseChannelPress | CasePitchWheel | CaseDefault.

Global Instance SwitchCase_eq_dec : EqDecision SwitchCase.
Proof. solve_decision. Defined.

(** Which label a value of the controlling expression selects. *)
Definition switchCase (sel : Z) : SwitchCase :=
  if sel =? kMIDIChanCmd_NoteOff then CaseNoteOff
  else if sel =? kMIDIChanCmd_NoteOn then CaseNoteOn
  else if sel =? kMIDIChanCmd_Control then CaseControl
  else if sel =? kMIDIChanCmd_KeyPress then CaseKeyPress
  else if sel =? kMIDIChanCmd_ProgramChange then CaseProgramChange
  else if sel =? kMIDIChanCmd_ChannelPress then CaseChannelPress
  else if sel =? kMIDIChanCmd_PitchWheel then CasePitchWheel
  else CaseDefault.

(** [(status & kMIDISysCmdChan) >> 4] *)
Definition chanCmd (status : Z) : Z := Z.shiftr (Z.land status kMIDISysCmdChan) 4.

(** The tail shared by the four traced-only cases and the default one. *)
Definition describe (label : string) (note velocity status : Z) : string :=
  label +:+ dec note +:+ " vel: " +:+ dec velocity +:+ " status: " +:+ dec status.

Definition parseMidiData (data : list Z) (numBytes : N) : Cmd () :=
  if (numBytes <? 3)%N then skip else
  let status   := Z.land (byteAt data 0) 0xFF in
  let note     := Z.land (byteAt data 1) 0xFF in
  let velocity := Z.land (byteAt data 2) 0xFF in
  match switchCase (chanCmd status) with
  | CaseNoteOff =>
      sendToCallback ("Note OFF: " +:+ dec note) ;;
      sus ← get sustain ;
      (if negb sus then
         emit (SynthNoteOff note) ;;
         modify (λ m, set_sustainNotes (sustainNotes m ∖ {[note]}) m)
       else skip) ;;
      modify (λ m, set_playNotes (playNotes m ∖ {[note]}) m)
  | CaseNoteOn =>
      sendToCallback ("Note ON: " +:+ dec note +:+ " vel: " +:+ dec velocity) ;;
      sus ← get sustain ;
      (if sus then modify (λ m, set_sustainNotes ({[note]} ∪ sustainNotes m) m)
       else skip) ;;
      modify (λ m, set_playNotes ({[note]} ∪ playNotes m) m) ;;
      emit (SynthNoteOn note velocity)
  | CaseControl => parseMidiCmdControl note velocity
  | CaseKeyPress =>
      sendToCallback (describe "Key Press: " note velocity status)
  | CaseProgramChange =>
      sendToCallback (describe "Program Change: " note velocity status)
  | CaseChannelPress =>
      sendToCallback (describe "Channel Press: " note velocity status)
  | CasePitchWheel =>
      sendToCallback (describe "Pitch Wheel: " note velocity status)
  | CaseDefault =>
      sendToCallback (describe "Unparsed: " note velocity status)
  end.

(** ** The constructor and the polling thread *)

(** [MidiManager::MidiManager]: [reading(false), sustain(false)], both sets
    default-constructed. *)
Definition MidiManager_new : MidiManager := mkMidiManager false false ∅ ∅.

(** What one call of [AMidiOutputPort_receive] leaves behind: its return
    value and the contents of its out-parameters after the call. *)
Record Received : Type := mkReceived {
  numMessagesReceived : Z;
  opcode              : Z;
  incomingMessage     : list Z;
  numBytesReceived    : N
}.

(** The body of [while (manager->reading)] for one answer of the transport. *)
Definition loopBody (r : Received) : Cmd () :=
  (if numMessagesReceived r <? 0 then
     (* failure receiving MIDI data: exit the thread *)
     modify (set_reading false)
   else skip) ;;
  (if (0 <? numMessagesReceived r) && (0 <=? numBytesReceived r)%N &&
      (opcode r =? AMIDI_OPCODE_DATA) &&
      negb (Z.land (byteAt (incomingMessage r) 0) kMIDISysCmdChan =? kMIDISysCmdChan)
   then parseMidiData (incomingMessage r) (numBytesReceived r)
   else skip) ;;
  (* AMidiOutputPort_receive is non-blocking *)
  emit (Usleep 500).

(** [while (manager->reading) { ... }], driven by the successive answers of
    the transport; the list bounds how long the thread is observed. *)
Fixpoint whileReading (transport : list Received) : Cmd () :=
  match transport with
  | [] => skip
  | r :: rest =>
      go ← get reading ;
      if go then loopBody r ;; whileReading rest else skip
  end.

Definition readThreadRoutine (transport : list Received) : Cmd () :=
  modify (set_reading true) ;;
  whileReading transport.

(** ** Reachable states *)

(** States of the object between two frames: the constructor's state, any
    write of the [reading] flag (thread start, fatal receive, destructor),
    and any frame handed to the decoder. *)
Inductive reachable : MidiManager → Prop :=
| reach_new : reachable MidiManager_new
| reach_reading m b : reachable m → reachable (set_reading b m)
| reach_frame m data numBytes :
    reachable m → reachable (stateAfter (parseMidiData data numBytes) m).

(** ** Frames used in the statements *)

Definition statusOf (data : list Z) : Z := Z.land (byteAt data 0) 0xFF.
Definition data1Of (data : list Z) : Z := Z.land (byteAt data 1) 0xFF.
Definition data2Of (data : list Z) : Z := Z.land (byteAt data 2) 0xFF.

(** A frame the decoder routes to the given case. *)
Definition isFrame (c : SwitchCase) (data : list Z) (numBytes : N) : Prop :=
  (3 ≤ numBytes)%N ∧ switchCase (chanCmd (statusOf data)) = c.

(** Control frame for the sustain pedal, pressed ([value ≥ 64]). *)
Definition isPedalDown (data : list Z) (numBytes : N) : Prop :=
  isFrame CaseControl data numBytes ∧ data1Of data = 64 ∧ 64 ≤ data2Of data.

(** Control frame for the sustain pedal, released ([value < 64]). *)
Definition isPedalUp (data : list Z) (numBytes : N) : Prop :=
  isFrame CaseControl data numBytes ∧ data1Of data = 64 ∧ data2Of data < 64.

(** ** Logs and invariant used in the statements *)

(** What the pedal-up branch logs: its trace line, then one stop per latched
    note that is not held, in ascending order. *)
Definition pedalUpLog (value : Z) (m : MidiManager) : list Effect :=
  Callback ("Sustain OFF: level: " +:+ dec value)
  :: (SynthNoteOff <$> filter (λ n, n ∉ playNotes m) (ascending (sustainNotes m))).

(** What the NoteOff case logs: its trace line, then the stop unless the
    pedal is down. *)
Definition noteOffLog (note : Z) (m : MidiManager) : list Effect :=
  Callback ("Note OFF: " +:+ dec note)
  :: (if sustain m then [] else [SynthNoteOff note]).

(** The cases that only write a trace line. *)
Definition tracedOnly (c : SwitchCase) : bool :=
  match c with
  | CaseKeyPress | CaseProgramChange | CaseChannelPress
  | CasePitchWheel | CaseDefault => true
  | CaseNoteOff | CaseNoteOn | CaseControl => false
  end.

(** While the pedal is down every held note is latched; while it is up
    nothing is latched. *)
Definition notesInv (m : MidiManager) : Prop :=
  (sustain m = true → playNotes m ⊆ sustainNotes m)
  ∧ (sustain m = false → sustainNotes m = ∅).

(** ** Concrete states and frames *)

(** Key 60 held, keys 60 and 62 latched, pedal down. *)
Definition held60_latched62 : MidiManager := mkMidiManager true true {[60]} {[60; 62]}.

(** Key 60 pressed, then the pedal pressed. *)
Definition key60_then_pedal : MidiManager :=
  stateAfter (parseMidiData [0xB0; 64; 127] 3)
    (stateAfter (parseMidiData [0x90; 60; 100] 3) MidiManager_new).

(** Key 60 pressed and caught by the pedal, key and pedal then released. *)
Definition key60_released : MidiManager :=
  stateAfter (parseMidiData [0xB0; 64; 0] 3)
    (stateAfter (parseMidiData [0x80; 60; 0] 3) key60_then_pedal).

(** Key 60 held, pedal up. *)
Definition key60_held : MidiManager :=
  stateAfter (parseMidiData [0x90; 60; 100] 3) MidiManager_new.

(** The decoder fed a sequence of frames, each with its own length as byte
    count. *)
Fixpoint feed (frames : list (list Z)) : Cmd () :=
  match frames with
  | [] => skip
  | data :: rest => parseMidiData data (N.of_nat (length data)) ;; feed rest
  end.

(** ** Runs of the decoder and what the engine is left sounding *)

(** Frames, each with the byte count the transport reported for it, decoded
    one after the other. *)
Fixpoint parseAll (frames : list (list Z * N)) : Cmd () :=
  match frames with
  | [] => skip
  | (data, numBytes) :: rest => parseMidiData data numBytes ;; parseAll rest
  end.


(** The three fields of the note/sustain state machine. *)
Definition noteState (m : MidiManager) : bool * gset Z * gset Z :=
  (sustain m, playNotes m, sustainNotes m).

(** A value that fits a [uint8_t]. *)
Definition isByte (v : Z) : Prop := 0 ≤ v ≤ 255.

(** Every argument of a call to the engine fits a [uint8_t]. *)
Definition byteArgs (e : Effect) : Prop :=
  match e with
  | SynthNoteOn n v => isByte n ∧ isByte v
  | SynthNoteOff n => isByte n
  | SynthReverb v => isByte v
  | SynthSendCC c v => isByte c ∧ isByte v
  | Callback _ | Usleep _ => True
  end.

(** What a Control frame for a controller other than the pedal logs. *)
Definition otherControlLog (controller value : Z) : list Effect :=
  if controller =? kMIDIControl_Reverb
  then [Callback ("Reverb: level: " +:+ dec value); SynthReverb value]
  else [Callback ("Unparsed command: controller: " +:+ dec controller
                  +:+ " value: " +:+ dec value);
        SynthSendCC controller value].

(** The label the traced-only cases print. *)
Definition traceLabel (c : SwitchCase) : string :=
  match c with
  | CaseKeyPress => "Key Press: "
  | CaseProgramChange => "Program Change: "
  | CaseChannelPress => "Channel Press: "
  | CasePitchWheel => "Pitch Wheel: "
  | _ => "Unparsed: "
  end.

(** ** What the polling thread hands to the decoder *)

(** The condition under which [readThreadRoutine] calls [parseMidiData]. *)
Definition accepted (r : Received) : bool :=
  (0 <? numMessagesReceived r) && (0 <=? numBytesReceived r)%N &&
  (opcode r =? AMIDI_OPCODE_DATA) &&
  negb (Z.land (byteAt (incomingMessage r) 0) kMIDISysCmdChan =? kMIDISysCmdChan).

(** The answers received before the first negative return value. *)
Fixpoint beforeFatal (transport : list Received) : list Received :=
  match transport with
  | [] => []
  | r :: rest =>
      if numMessagesReceived r <? 0 then [] else r :: beforeFatal rest
  end.

(** The iterations the loop runs: the answers up to and including the first
    negative one. *)
Fixpoint iterations (transport : list Received) : list Received :=
  match transport with
  | [] => []
  | r :: rest =>
      if numMessagesReceived r <? 0 then [r] else r :: iterations rest
  end.

(** The frames of a transport history that reach the decoder. *)
Definition acceptedFrames (transport : list Received) : list (list Z * N) :=
  (λ r, (incomingMessage r, numBytesReceived r))
    <$> filter (λ r, accepted r = true) (beforeFatal transport).

Definition isUsleep (e : Effect) : bool :=
  match e with Usleep _ => true | _ => false end.

(** A log without its [usleep] entries. *)
Definition withoutSleep (log : list Effect) : list Effect :=
  filter (λ e, isUsleep e = false) log.

(** ** SynthManager.cpp *)

(** The synthesizer wrapper.  A FluidSynth handle is a [Z], 0 being
    [nullptr]; the calls into FluidSynth are logged in program order, and what
    FluidSynth returns from a call is an argument of the function that makes
    it.  A [double] argument is recorded as the rational its C expression
    denotes. *)
Module SynthManager.

Definition kFluidSynthSampleRate : Z := 44100.
Definition kFluidSynthLatency : Z := 10.

(** [FLUID_FAILED] of the FluidSynth headers. *)
Definition FLUID_FAILED : Z := -1.

(** [LATENCY_TO_BUFFER_SIZE(x)] *)
Definition LATENCY_TO_BUFFER_SIZE (x : Z) : Q :=
  Qmake (kFluidSynthSampleRate * x) 1000.

Record t : Type := mk {
  settings    : Z;
  synth       : Z;
  driver      : Z;
  soundfontId : Z
}.

Inductive FluidCall : Type :=
| new_fluid_settings
| fluid_settings_setint (settings : Z) (name : string) (val : Z)
| fluid_settings_setnum (settings : Z) (name : string) (val : Q)
| fluid_settings_setstr (settings : Z) (name str : string)
| new_fluid_synth (settings : Z)
| new_fluid_audio_driver (settings synth : Z)
| delete_fluid_audio_driver (driver : Z)
| delete_fluid_synth (synth : Z)
| delete_fluid_settings (settings : Z)
| fluid_synth_sfload (synth : Z) (path : string) (reset_presets : Z)
| fluid_synth_sfont_select (synth chan id : Z)
| fluid_synth_sfunload (synth id reset_presets : Z)
| fluid_synth_program_change (synth chan program : Z)
| fluid_synth_noteon (synth chan note velocity : Z)
| fluid_synth_noteoff (synth chan note : Z)
| fluid_synth_reverb_on (synth fx_group : Z) (on : bool)
| fluid_synth_set_reverb_group_level (synth fx_group : Z) (level : Q)
| fluid_synth_cc (synth chan controller value : Z).

(** [SynthManager::setLatency] *)
Definition setLatency (ms : Z) (s : t) : list FluidCall :=
  [fluid_settings_setnum (settings s) "audio.period-size" (LATENCY_TO_BUFFER_SIZE ms);
   fluid_settings_setint (settings s) "audio.periods" 2].

(** [SynthManager::SynthManager].  Only [soundfontId] has an initializer:
    the three pointers hold whatever [uninit] holds until they are assigned.
    [rSettings], [rSynth], [rDriver] are what [new_fluid_settings],
    [new_fluid_synth] and [new_fluid_audio_driver] return. *)
Definition construct (uninit : t) (rSettings rSynth rDriver : Z)
  : t * list FluidCall :=
  let s1 := mk rSettings (synth uninit) (driver uninit) (-1) in
  let log1 := [new_fluid_settings] in
  if rSettings =? 0 then (s1, log1) else
  let log2 := log1 ++
    [fluid_settings_setint rSettings "synth.cpu-cores" 4;
     fluid_settings_setnum rSettings "synth.gain" (Qmake 6 10);
     fluid_settings_setstr rSettings "audio.oboe.performance-mode" "LowLatency";
     fluid_settings_setstr rSettings "audio.oboe.sharing-mode" "Exclusive";
     fluid_settings_setnum rSettings "synth.sample-rate"
       (inject_Z kFluidSynthSampleRate)]
    ++ setLatency kFluidSynthLatency s1
    ++ [new_fluid_synth rSettings] in
  let s2 := mk rSettings rSynth (driver uninit) (-1) in
  if rSynth =? 0 then (s2, log2 ++ [delete_fluid_settings rSettings]) else
  let log3 := log2 ++ [new_fluid_audio_driver rSettings rSynth] in
  let s3 := mk rSettings rSynth rDriver (-1) in
  if rDriver =? 0
  then (s3, log3 ++ [delete_fluid_synth rSynth; delete_fluid_settings rSettings])
  else (s3, log3).

(** [SynthManager::~SynthManager] *)
Definition destroy (s : t) : list FluidCall :=
  (if negb (synth s =? 0) && negb (soundfontId s =? -1)
   then [fluid_synth_sfunload (synth s) (soundfontId s) 1] else [])
  ++ (if negb (driver s =? 0) then [delete_fluid_audio_driver (driver s)] else [])
  ++ (if negb (synth s =? 0) then [delete_fluid_synth (synth s)] else [])
  ++ (if negb (settings s =? 0) then [delete_fluid_settings (settings s)] else []).

(** [SynthManager::loadSF]; [rLoad] is what [fluid_synth_sfload] returns. *)
Definition loadSF (soundfontPath : string) (rLoad : Z) (s : t)
  : bool * t * list FluidCall :=
  if synth s =? 0 then (false, s, []) else
  let id := rLoad in
  if id =? FLUID_FAILED
  then (false, s, [fluid_synth_sfload (synth s) soundfontPath 0])
  else (true, mk (settings s) (synth s) (driver s) id,
        [fluid_synth_sfload (synth s) soundfontPath 0;
         fluid_synth_sfont_select (synth s) 0 id]).

Definition programChange (chan program : Z) (s : t) : list FluidCall :=
  if synth s =? 0 then [] else [fluid_synth_program_change (synth s) chan program].

Definition noteOn (chan note velocity : Z) (s : t) : list FluidCall :=
  if synth s =? 0 then [] else [fluid_synth_noteon (synth s) chan note velocity].

Definition noteOff (chan note : Z) (s : t) : list FluidCall :=
  if synth s =? 0 then [] else [fluid_synth_noteoff (synth s) chan note].

Definition reverb (level : Z) (s : t) : list FluidCall :=
  if synth s =? 0 then [] else
  [fluid_synth_reverb_on (synth s) (-1) (0 <? level);
   fluid_synth_set_reverb_group_level (synth s) (-1) (Qmake level 127)].

Definition sendCC (chan controller value : Z) (s : t) : list FluidCall :=
  if synth s =? 0 then [] else [fluid_synth_cc (synth s) chan controller value].

(** What the owner can ask of an instance, with what FluidSynth answers
    where the method reads an answer. *)
Inductive Request : Type :=
| LoadSF (soundfontPath : string) (rLoad : Z)
| ProgramChange (chan program : Z)
| NoteOn (chan note velocity : Z)
| NoteOff (chan note : Z)
| Reverb (level : Z)
| SendCC (chan controller value : Z).

Definition serve (q : Request) (s : t) : t * list FluidCall :=
  match q with
  | LoadSF path rLoad => let '(_, s', log) := loadSF path rLoad s in (s', log)
  | ProgramChange chan program => (s, programChange chan program s)
  | NoteOn chan note velocity => (s, noteOn chan note velocity s)
  | NoteOff chan note => (s, noteOff chan note s)
  | Reverb level => (s, reverb level s)
  | SendCC chan controller value => (s, sendCC chan controller value s)
  end.

(** Requests served one after the other. *)
Fixpoint serveAll (qs : list Request) (s : t) : t * list FluidCall :=
  match qs with
  | [] => (s, [])
  | q :: rest =>
      let '(s1, log1) := serve q s in
      let '(s2, log2) := serveAll rest s1 in
      (s2, log1 ++ log2)
  end.

(** The id of the last load that FluidSynth did not fail, [id0] if there is
    none. *)
Fixpoint lastLoaded (qs : list Request) (id0 : Z) : Z :=
  match qs with
  | [] => id0
  | LoadSF _ rLoad :: rest =>
      lastLoaded rest (if rLoad =? FLUID_FAILED then id0 else rLoad)
  | _ :: rest => lastLoaded rest id0
  end.

(** The synth handle a call works on, if it works on one. *)
Definition usesSynth (c : FluidCall) : option Z :=
  match c with
  | new_fluid_audio_driver _ h | delete_fluid_synth h
  | fluid_synth_sfload h _ _ | fluid_synth_sfont_select h _ _
  | fluid_synth_sfunload h _ _ | fluid_synth_program_change h _ _
  | fluid_synth_noteon h _ _ _ | fluid_synth_noteoff h _ _
  | fluid_synth_reverb_on h _ _ | fluid_synth_set_reverb_group_level h _ _
  | fluid_synth_cc h _ _ _ => Some h
  | _ => None
  end.

Definition deletesSynth (c : FluidCall) : option Z :=
  match c with delete_fluid_synth h => Some h | _ => None end.

(** Whether a call unloads a soundfont. *)
Definition unloads (c : FluidCall) : bool :=
  match c with fluid_synth_sfunload _ _ _ => true | _ => false end.

(** No call works on a synth handle that an earlier call deleted. *)
Fixpoint synthNeverUsedAfterDelete (log : list FluidCall) : Prop :=
  match log with
  | [] => True
  | c :: rest =>
      (∀ h, deletesSynth c = Some h → Forall (λ c', usesSynth c' ≠ Some h) rest)
      ∧ synthNeverUsedAfterDelete rest
  end.

End SynthManager.

(** ** The singleton of MidiManager *)

(** [MidiManager::getInstance], [freeInstance], the constructor and the
    destructor, seen from the owning context: the static [instance] pointer
    and the JNI, NDK and pthread calls, in program order. *)
Module Lifecycle.

Inductive SysCall : Type :=
| GetJavaVM
| GetObjectClass
| NewGlobalRef
| GetMethodID (name sig : string)
| SynthManager_getInstance
| AMidiDevice_fromJava
| AMidiOutputPort_open (portNumber : Z)
| pthread_create
| pthread_join
| AMidiDevice_release.

Global Instance SysCall_eq_dec : EqDecision SysCall.
Proof. solve_decision. Defined.

(** [MidiManager::MidiManager] *)
Definition construct (portNumber : Z) : MidiManager * list SysCall :=
  (MidiManager_new,
   [SynthManager_getInstance; AMidiDevice_fromJava;
    AMidiOutputPort_open portNumber; pthread_create]).

(** [MidiManager::~MidiManager] *)
Definition destroy (m : MidiManager) : MidiManager * list SysCall :=
  (set_reading false m, [pthread_join; AMidiDevice_release]).








End Lifecycle.

(** Closes the side conditions of a concrete frame by evaluation. *)
Ltac frame_facts := repeat split; solve [reflexivity | lia | by vm_compute].

(** * Properties *)

(** ** Running the primitive commands *)

Lemma bind_ret_l {A B} (a : A) (k : A → Cmd B) m : bind (ret a) k m = k a m.
Proof. unfold bind, ret. by destruct (k a m) as [[b m2] log2]. Qed.

Lemma bind_get {A B} (f : MidiManager → A) (k : A → Cmd B) m :
  bind (get f) k m = k (f m) m.
Proof. unfold bind, get. by destruct (k (f m) m) as [[b m2] log2]. Qed.

Lemma bind_modify {B} (f : MidiManager → MidiManager) (k : () → Cmd B) m :
  bind (modify f) k m = k () (f m).
Proof. unfold bind, modify. by destruct (k () (f m)) as [[b m2] log2]. Qed.

Lemma bind_assoc {A B C} (c : Cmd A) (k : A → Cmd B) (h : B → Cmd C) m :
  bind (bind c k) h m = bind c (λ a, bind (k a) h) m.
Proof.
  unfold bind. destruct (c m) as [[a m1] log1].
  destruct (k a m1) as [[b m2] log2]. destruct (h b m2) as [[d m3] log3].
  by rewrite app_assoc.
Qed.

Lemma bind_ext {A B} (c : Cmd A) (k k' : A → Cmd B) m :
  (∀ a m1, k a m1 = k' a m1) → bind c k m = bind c k' m.
Proof. intros Hk. unfold bind. destruct (c m) as [[a m1] log1]. by rewrite Hk. Qed.

(** A trace line that starts with a literal is never the empty string. *)
Lemma sendToCallback_nonempty a p s m :
  sendToCallback (String a p +:+ s) m = ((), m, [Callback (String a p +:+ s)]).
Proof. unfold sendToCallback. by rewrite decide_False. Qed.

(** The release loop of the pedal-up branch leaves the fields alone and stops,
    in iteration order, the notes that are not in [playNotes]. *)
Lemma forEach_release l m :
  forEach l (λ n, play ← get playNotes ;
                  if decide (n ∈ play) then skip else emit (SynthNoteOff n)) m
  = ((), m, SynthNoteOff <$> filter (λ n, n ∉ playNotes m) l).
Proof.
  induction l as [|n l IH]; [done|].
  cbn [forEach]. unfold bind at 1. unfold bind at 1, get at 1.
  rewrite filter_cons. destruct (decide (n ∈ playNotes m)) as [Hin|Hin].
  - rewrite decide_False by tauto. cbn. by rewrite IH.
  - rewrite decide_True by done. cbn. by rewrite IH.
Qed.

(** ** The two branches of the sustain controller, in closed form *)

Lemma parseMidiCmdControl_pedal_up value m :
  value < 64 →
  parseMidiCmdControl 64 value m
  = ((), mkMidiManager (reading m) false (playNotes m) ∅, pedalUpLog value m).
Proof.
  intros Hv. unfold parseMidiCmdControl.
  change (64 =? kMIDIControl_Sustain) with true. cbv iota.
  replace (value >=? kMIDIControl_Sustain_level) with false
    by (rewrite Z.geb_leb; symmetry; apply Z.leb_gt;
        unfold kMIDIControl_Sustain_level; lia).
  unfold bind at 1. rewrite sendToCallback_nonempty.
  unfold bind at 1, modify at 1. unfold bind at 1, get at 1.
  unfold bind at 1. rewrite forEach_release.
  unfold modify, set_sustainNotes, set_sustain, pedalUpLog; cbn.
  by rewrite app_nil_r.
Qed.

Lemma parseMidiCmdControl_pedal_down value m :
  64 ≤ value →
  parseMidiCmdControl 64 value m
  = ((), mkMidiManager (reading m) true (playNotes m) (sustainNotes m ∪ playNotes m),
     [Callback ("Sustain ON: level: " +:+ dec value)]).
Proof.
  intros Hv. unfold parseMidiCmdControl.
  change (64 =? kMIDIControl_Sustain) with true. cbv iota.
  replace (value >=? kMIDIControl_Sustain_level) with true
    by (rewrite Z.geb_leb; symmetry; apply Z.leb_le;
        unfold kMIDIControl_Sustain_level; lia).
  unfold bind at 1. rewrite sendToCallback_nonempty.
  unfold bind, modify, get, skip, ret, set_sustainNotes, set_sustain; cbn.
  destruct (decide (playNotes m = ∅)) as [He|He]; cbn; [|done].
  by rewrite He, union_empty_r_L.
Qed.

(** ** The decoder, case by case *)

Lemma parseMidiData_short data numBytes m :
  (numBytes < 3)%N → parseMidiData data numBytes m = ((), m, []).
Proof.
  intros Hn. unfold parseMidiData.
  by destruct (N.ltb_spec numBytes 3); [|lia].
Qed.

(** From three bytes on, the decoder is the body of the selected case. *)
Lemma parseMidiData_case c data numBytes :
  isFrame c data numBytes →
  parseMidiData data numBytes =
  let status := statusOf data in
  let note := data1Of data in
  let velocity := data2Of data in
  match c with
  | CaseNoteOff =>
      sendToCallback ("Note OFF: " +:+ dec note) ;;
      sus ← get sustain ;
      (if negb sus then
         emit (SynthNoteOff note) ;;
         modify (λ m, set_sustainNotes (sustainNotes m ∖ {[note]}) m)
       else skip) ;;
      modify (λ m, set_playNotes (playNotes m ∖ {[note]}) m)
  | CaseNoteOn =>
      sendToCallback ("Note ON: " +:+ dec note +:+ " vel: " +:+ dec velocity) ;;
      sus ← get sustain ;
      (if sus then modify (λ m, set_sustainNotes ({[note]} ∪ sustainNotes m) m)
       else skip) ;;
      modify (λ m, set_playNotes ({[note]} ∪ playNotes m) m) ;;
      emit (SynthNoteOn note velocity)
  | CaseControl => parseMidiCmdControl note velocity
  | CaseKeyPress =>
      sendToCallback (describe "Key Press: " note velocity status)
  | CaseProgramChange =>
      sendToCallback (describe "Program Change: " note velocity status)
  | CaseChannelPress =>
      sendToCallback (describe "Channel Press: " note velocity status)
  | CasePitchWheel =>
      sendToCallback (describe "Pitch Wheel: " note velocity status)
  | CaseDefault =>
      sendToCallback (describe "Unparsed: " note velocity status)
  end.
Proof.
  intros [Hn Hc]. unfold parseMidiData.
  destruct (N.ltb_spec numBytes 3); [lia|].
  cbv zeta. change (Z.land (byteAt data 0) 255) with (statusOf data).
  by rewrite Hc.
Qed.

Lemma parseMidiData_noteOff data numBytes m :
  isFrame CaseNoteOff data numBytes →
  parseMidiData data numBytes m
  = ((), mkMidiManager (reading m) (sustain m)
           (playNotes m ∖ {[data1Of data]})
           (if sustain m then sustainNotes m
            else sustainNotes m ∖ {[data1Of data]}),
     noteOffLog (data1Of data) m).
Proof.
  intros Hf. rewrite (parseMidiData_case _ _ _ Hf). cbv zeta.
  unfold bind at 1. rewrite sendToCallback_nonempty.
  unfold noteOffLog, bind, get, modify, emit, skip, ret,
    set_sustainNotes, set_playNotes.
  by destruct m as [r [] p s].
Qed.

Lemma parseMidiData_noteOn data numBytes m :
  isFrame CaseNoteOn data numBytes →
  parseMidiData data numBytes m
  = ((), mkMidiManager (reading m) (sustain m)
           ({[data1Of data]} ∪ playNotes m)
           (if sustain m then {[data1Of data]} ∪ sustainNotes m
            else sustainNotes m),
     [Callback ("Note ON: " +:+ dec (data1Of data)
                +:+ " vel: " +:+ dec (data2Of data));
      SynthNoteOn (data1Of data) (data2Of data)]).
Proof.
  intros Hf. rewrite (parseMidiData_case _ _ _ Hf). cbv zeta.
  unfold bind at 1. rewrite sendToCallback_nonempty.
  unfold bind, get, modify, emit, skip, ret, set_sustainNotes, set_playNotes.
  by destruct m as [r [] p s].
Qed.

Lemma parseMidiData_control data numBytes m :
  isFrame CaseControl data numBytes →
  parseMidiData data numBytes m
  = parseMidiCmdControl (data1Of data) (data2Of data) m.
Proof. intros Hf. by rewrite (parseMidiData_case _ _ _ Hf). Qed.

Lemma parseMidiData_tracedOnly c data numBytes m :
  isFrame c data numBytes → tracedOnly c = true →
  ∃ msg, parseMidiData data numBytes m = ((), m, [Callback msg]).
Proof.
  intros Hf Hc. rewrite (parseMidiData_case _ _ _ Hf). cbv zeta.
  destruct c; try discriminate Hc; unfold describe;
    rewrite sendToCallback_nonempty; eauto.
Qed.

(** Controllers other than the sustain pedal leave the fields alone. *)
Lemma parseMidiCmdControl_other controller value m :
  controller ≠ 64 →
  ∃ msg e, parseMidiCmdControl controller value m = ((), m, [Callback msg; e])
           ∧ e ∈ [SynthReverb value; SynthSendCC controller value].
Proof.
  intros Hc. unfold parseMidiCmdControl.
  destruct (Z.eqb_spec controller kMIDIControl_Sustain) as [He|_]; [done|].
  destruct (controller =? kMIDIControl_Reverb);
    unfold bind; rewrite sendToCallback_nonempty; unfold emit; cbn;
    eexists _, _; (split; [done|set_solver]).
Qed.

(** Every frame of at least three bytes is routed to exactly one case. *)
Lemma isFrame_total data numBytes :
  (3 ≤ numBytes)%N → isFrame (switchCase (chanCmd (statusOf data))) data numBytes.
Proof. by split. Qed.

(** ** Counting the engine's note-off calls *)

Lemma ascending_elem n s : n ∈ ascending s ↔ n ∈ s.
Proof. unfold ascending. by rewrite merge_sort_Permutation, elem_of_elements. Qed.

Lemma NoDup_ascending s : NoDup (ascending s).
Proof. unfold ascending. rewrite merge_sort_Permutation. apply NoDup_elements. Qed.

Lemma noteOffCount_fmap n (l : list Z) :
  noteOffCount n (SynthNoteOff <$> l) = length (filter (λ x, x = n) l).
Proof.
  unfold noteOffCount. induction l as [|x l IH]; [done|].
  rewrite fmap_cons, !filter_cons.
  destruct (decide (x = n)) as [->|Hne].
  - rewrite decide_True by done. cbn. by rewrite IH.
  - rewrite decide_False by congruence. done.
Qed.

Lemma length_filter_NoDup n (l : list Z) :
  NoDup l →
  length (filter (λ x, x = n) l) = if decide (n ∈ l) then 1%nat else 0%nat.
Proof.
  induction 1 as [|x l Hx Hnd IH]; [done|].
  rewrite filter_cons. destruct (decide (x = n)) as [->|Hne].
  - cbn [length]. rewrite IH, decide_False by done.
    by rewrite decide_True by left.
  - rewrite IH. apply decide_ext. rewrite elem_of_cons. naive_solver.
Qed.

Lemma noteOffCount_pedalUpLog n value m :
  noteOffCount n (pedalUpLog value m)
  = if decide (n ∈ sustainNotes m ∧ n ∉ playNotes m) then 1%nat else 0%nat.
Proof.
  pose proof (noteOffCount_fmap n
    (filter (λ k, k ∉ playNotes m) (ascending (sustainNotes m)))) as Hoff.
  unfold pedalUpLog, noteOffCount in *.
  rewrite filter_cons, decide_False by discriminate.
  rewrite Hoff, length_filter_NoDup by apply NoDup_filter, NoDup_ascending.
  apply decide_ext. rewrite list_elem_of_filter, ascending_elem. tauto.
Qed.

Lemma engineCalls_fmap_noteOff (l : list Z) :
  engineCalls (SynthNoteOff <$> l) = SynthNoteOff <$> l.
Proof.
  unfold engineCalls. induction l as [|x l IH]; [done|].
  rewrite fmap_cons, filter_cons, decide_True by done. by rewrite IH.
Qed.

Lemma engineCalls_pedalUpLog value m :
  engineCalls (pedalUpLog value m)
  = SynthNoteOff <$> filter (λ n, n ∉ playNotes m) (ascending (sustainNotes m)).
Proof.
  unfold pedalUpLog, engineCalls.
  rewrite filter_cons, decide_False by discriminate.
  apply engineCalls_fmap_noteOff.
Qed.

(** ** The invariant of the two note sets *)

Lemma notesInv_parseMidiCmdControl controller value m :
  notesInv m → notesInv (stateAfter (parseMidiCmdControl controller value) m).
Proof.
  intros [Hdown Hup]. unfold stateAfter.
  destruct (decide (controller = 64)) as [->|Hc].
  - destruct (Z.lt_ge_cases value 64) as [Hv|Hv].
    + rewrite parseMidiCmdControl_pedal_up by done. by split.
    + rewrite parseMidiCmdControl_pedal_down by done. split; [cbn|done].
      intros _. set_solver.
  - destruct (parseMidiCmdControl_other controller value m Hc)
      as (msg & e & -> & _). by split.
Qed.

Lemma notesInv_parseMidiData data numBytes m :
  notesInv m → notesInv (stateAfter (parseMidiData data numBytes) m).
Proof.
  intros Hinv. destruct (N.lt_ge_cases numBytes 3) as [Hn|Hn].
  { unfold stateAfter. by rewrite parseMidiData_short. }
  pose proof (isFrame_total data _ Hn) as Hf.
  destruct (switchCase (chanCmd (statusOf data))) eqn:Hc.
  1: { unfold stateAfter. rewrite parseMidiData_noteOff by done.
       destruct Hinv as [Hdown Hup]. split; cbn; intros Hs; rewrite Hs in *.
       - specialize (Hdown eq_refl). set_solver.
       - rewrite Hup by done. set_solver. }
  1: { unfold stateAfter. rewrite parseMidiData_noteOn by done.
       destruct Hinv as [Hdown Hup]. split; cbn; intros Hs; rewrite Hs in *.
       - specialize (Hdown eq_refl). set_solver.
       - by apply Hup. }
  1: { unfold stateAfter. rewrite parseMidiData_control by done.
       by apply notesInv_parseMidiCmdControl. }
  all: unfold stateAfter;
    by destruct (parseMidiData_tracedOnly _ data numBytes m Hf eq_refl) as [msg ->].
Qed.

Lemma reachable_notesInv m : reachable m → notesInv m.
Proof.
  induction 1 as [|m b _ IH|m data numBytes _ IH].
  - by split.
  - exact IH.
  - by apply notesInv_parseMidiData.
Qed.

(** ** Sustain pedal *)

(** C1. Pedal-up reconciliation.  From any state, a Control frame for
    controller 64 with a value below 64 clears the sustain flag, asks the
    engine to stop each note once when it is in [sustainNotes] and not in
    [playNotes] and never otherwise (so never for a note in [playNotes]),
    makes no other engine call, empties [sustainNotes] and leaves [playNotes]
    as it was.  The stops are issued in ascending note order. *)
Theorem pedal_up_reconciliation m data numBytes :
  isPedalUp data numBytes →
  let m' := stateAfter (parseMidiData data numBytes) m in
  let log := logOf (parseMidiData data numBytes) m in
  sustain m' = false
  ∧ (∀ n, noteOffCount n log
          = if decide (n ∈ sustainNotes m ∧ n ∉ playNotes m) then 1%nat else 0%nat)
  ∧ engineCalls log
    = SynthNoteOff <$> filter (λ n, n ∉ playNotes m) (ascending (sustainNotes m))
  ∧ sustainNotes m' = ∅
  ∧ playNotes m' = playNotes m.
Proof.
  intros (Hf & Hc & Hv). cbv zeta. unfold stateAfter, logOf.
  rewrite parseMidiData_control, Hc, parseMidiCmdControl_pedal_up by done.
  cbn [fst snd sustain sustainNotes playNotes].
  repeat split; auto using noteOffCount_pedalUpLog, engineCalls_pedalUpLog.
Qed.

(** C2. Pedal-down catch.  From any state, a Control frame for controller 64
    with a value of 64 or more sets the sustain flag, makes [sustainNotes] the
    union of its previous value and [playNotes], calls the engine not at all,
    and leaves [playNotes] as it was. *)
Theorem pedal_down_catch m data numBytes :
  isPedalDown data numBytes →
  let m' := stateAfter (parseMidiData data numBytes) m in
  let log := logOf (parseMidiData data numBytes) m in
  sustain m' = true
  ∧ sustainNotes m' = sustainNotes m ∪ playNotes m
  ∧ playNotes m ⊆ sustainNotes m'
  ∧ engineCalls log = []
  ∧ playNotes m' = playNotes m.
Proof.
  intros (Hf & Hc & Hv). cbv zeta. unfold stateAfter, logOf.
  rewrite parseMidiData_control, Hc, parseMidiCmdControl_pedal_down by done.
  cbn [fst snd sustain sustainNotes playNotes].
  repeat split; [set_solver].
Qed.

(** C9. Pedal-down idempotence.  After one pedal-down frame a second one
    (whatever its channel and its value of 64 or more) leaves every field as
    the first left it and calls the engine not at all. *)
Theorem pedal_down_idempotent m data1 numBytes1 data2 numBytes2 :
  isPedalDown data1 numBytes1 →
  isPedalDown data2 numBytes2 →
  let m1 := stateAfter (parseMidiData data1 numBytes1) m in
  stateAfter (parseMidiData data2 numBytes2) m1 = m1
  ∧ engineCalls (logOf (parseMidiData data2 numBytes2) m1) = [].
Proof.
  intros (Hf1 & Hc1 & Hv1) (Hf2 & Hc2 & Hv2). cbv zeta. unfold stateAfter, logOf.
  rewrite (parseMidiData_control data1), Hc1, parseMidiCmdControl_pedal_down by done.
  rewrite (parseMidiData_control data2), Hc2, parseMidiCmdControl_pedal_down by done.
  cbn [fst snd reading sustain sustainNotes playNotes]. split; [|done].
  f_equal. set_solver.
Qed.

(** ** Notes *)

(** C3. NoteOff by sustain flag.  A NoteOff frame for a note [n] that is in
    [playNotes] removes [n] from [playNotes].  With the sustain flag clear
    the engine's only call is one note-off for [n], and [n] is erased from
    [sustainNotes].  With the flag set the engine is not called and
    [sustainNotes] is not touched; in a reachable state [n] is then a member
    of it after the frame. *)
Theorem noteOff_by_sustain_flag m data numBytes :
  isFrame CaseNoteOff data numBytes →
  data1Of data ∈ playNotes m →
  let n := data1Of data in
  let m' := stateAfter (parseMidiData data numBytes) m in
  let log := logOf (parseMidiData data numBytes) m in
  playNotes m' = playNotes m ∖ {[n]}
  ∧ (n ∉ playNotes m')
  ∧ (if sustain m
     then engineCalls log = []
          ∧ sustainNotes m' = sustainNotes m
          ∧ (reachable m → n ∈ sustainNotes m')
     else engineCalls log = [SynthNoteOff n]
          ∧ noteOffCount n log = 1%nat
          ∧ sustainNotes m' = sustainNotes m ∖ {[n]}
          ∧ n ∉ sustainNotes m').
Proof.
  intros Hf Hplay. cbv zeta. unfold stateAfter, logOf.
  rewrite parseMidiData_noteOff by done.
  cbn [fst snd sustain sustainNotes playNotes]. unfold noteOffLog.
  split; [done|]. split; [set_solver|].
  destruct (sustain m) eqn:Hs.
  - repeat split. intros Hr.
    destruct (reachable_notesInv m Hr) as [Hdown _]. set_solver.
  - unfold engineCalls, noteOffCount. repeat split; [|set_solver].
    rewrite filter_cons, decide_False by discriminate.
    by rewrite filter_cons, decide_True by done.
Qed.

(** C10. NoteOn, whatever the velocity (0 included).  The note is inserted
    into [playNotes], and into [sustainNotes] when the sustain flag is set;
    the engine's only call is note-on with the frame's note and velocity; no
    note leaves either set and the sustain flag keeps its value. *)
Theorem noteOn_any_velocity m data numBytes :
  isFrame CaseNoteOn data numBytes →
  let n := data1Of data in
  let velocity := data2Of data in
  let m' := stateAfter (parseMidiData data numBytes) m in
  let log := logOf (parseMidiData data numBytes) m in
  playNotes m' = {[n]} ∪ playNotes m
  ∧ sustainNotes m'
    = (if sustain m then {[n]} ∪ sustainNotes m else sustainNotes m)
  ∧ engineCalls log = [SynthNoteOn n velocity]
  ∧ (∀ k, noteOffCount k log = 0%nat)
  ∧ playNotes m ⊆ playNotes m'
  ∧ sustainNotes m ⊆ sustainNotes m'
  ∧ sustain m' = sustain m.
Proof.
  intros Hf. cbv zeta. unfold stateAfter, logOf.
  rewrite parseMidiData_noteOn by done.
  cbn [fst snd sustain sustainNotes playNotes].
  repeat split; [set_solver|destruct (sustain m); set_solver].
Qed.

(** C7. A buffer of fewer than three bytes is dropped: every field keeps its
    value and the log stays empty, so there is no engine call and no trace
    line. *)
Theorem short_frame_dropped m data numBytes :
  (numBytes < 3)%N →
  stateAfter (parseMidiData data numBytes) m = m
  ∧ logOf (parseMidiData data numBytes) m = []
  ∧ engineCalls (logOf (parseMidiData data numBytes) m) = []
  ∧ traces (logOf (parseMidiData data numBytes) m) = [].
Proof.
  intros Hn. unfold stateAfter, logOf. by rewrite parseMidiData_short.
Qed.

(** ** Invariants of the reachable states *)

(** C4. In every reachable state with the sustain flag set, [playNotes] is
    included in [sustainNotes]. *)
Theorem reachable_sustain_latches_playing m :
  reachable m → sustain m = true → playNotes m ⊆ sustainNotes m.
Proof. intros Hr. by destruct (reachable_notesInv m Hr). Qed.

(** C5. In every reachable state with the sustain flag clear, [sustainNotes]
    is empty; hence the erase from [sustainNotes] in the NoteOff case changes
    nothing there. *)
Theorem reachable_sustain_off_empty m :
  reachable m → sustain m = false →
  sustainNotes m = ∅
  ∧ ∀ data numBytes,
      isFrame CaseNoteOff data numBytes →
      sustainNotes m ∖ {[data1Of data]} = sustainNotes m
      ∧ sustainNotes (stateAfter (parseMidiData data numBytes) m) = sustainNotes m.
Proof.
  intros Hr Hs. destruct (reachable_notesInv m Hr) as [_ Hup].
  specialize (Hup Hs). split; [done|]. intros data numBytes Hf.
  unfold stateAfter. rewrite parseMidiData_noteOff by done.
  cbn [fst snd sustainNotes]. rewrite Hs, Hup. set_solver.
Qed.

(** ** Channel bits *)

(** The controlling expression of the [switch] reads bits 4 to 7 only. *)
Lemma chanCmd_high_nibble a b :
  (∀ i, 4 ≤ i < 8 → Z.testbit a i = Z.testbit b i) →
  chanCmd (Z.land a 0xFF) = chanCmd (Z.land b 0xFF).
Proof.
  intros Hbits. unfold chanCmd, kMIDISysCmdChan. apply Z.bits_inj'.
  intros i Hi. rewrite !Z.shiftr_spec, !Z.land_spec by done.
  destruct (Z.testbit 240 (i + 4)) eqn:Hmask.
  - assert (i + 4 < 8) as Hlt.
    { destruct (Z.lt_ge_cases (i + 4) 8) as [|Hge]; [done|].
      rewrite (Z.bits_above_log2 240 (i + 4)) in Hmask; [done|lia|].
      change (Z.log2 240) with 7. lia. }
    by rewrite (Hbits (i + 4)) by lia.
  - by rewrite !andb_false_r.
Qed.

(** C8. Channel-agnostic decoding.  Two frames of at least three bytes that
    agree on bits 4 to 7 of byte 0 and on bytes 1 and 2 select the same case
    of the [switch], leave the object in the same state and make the same
    engine calls; bits 0 to 3 of byte 0 play no part in any of it. *)
Theorem channel_agnostic m data1 numBytes1 data2 numBytes2 :
  (3 ≤ numBytes1)%N → (3 ≤ numBytes2)%N →
  (∀ i, 4 ≤ i < 8 → Z.testbit (byteAt data1 0) i = Z.testbit (byteAt data2 0) i) →
  byteAt data1 1 = byteAt data2 1 →
  byteAt data1 2 = byteAt data2 2 →
  switchCase (chanCmd (statusOf data1)) = switchCase (chanCmd (statusOf data2))
  ∧ stateAfter (parseMidiData data1 numBytes1) m
    = stateAfter (parseMidiData data2 numBytes2) m
  ∧ engineCalls (logOf (parseMidiData data1 numBytes1) m)
    = engineCalls (logOf (parseMidiData data2 numBytes2) m).
Proof.
  intros Hn1 Hn2 Hbits Hb1 Hb2.
  pose proof (isFrame_total data1 _ Hn1) as Hf1.
  pose proof (isFrame_total data2 _ Hn2) as Hf2.
  assert (chanCmd (statusOf data1) = chanCmd (statusOf data2)) as Hcmd
    by apply chanCmd_high_nibble, Hbits.
  assert (data1Of data1 = data1Of data2) as Hd1 by (unfold data1Of; by rewrite Hb1).
  assert (data2Of data1 = data2Of data2) as Hd2 by (unfold data2Of; by rewrite Hb2).
  rewrite Hcmd in Hf1 |- *. split; [done|].
  unfold stateAfter, logOf.
  destruct (switchCase (chanCmd (statusOf data2))) eqn:Hc.
  1: by rewrite !parseMidiData_noteOff, Hd1 by done.
  1: by rewrite !parseMidiData_noteOn, Hd1, Hd2 by done.
  1: by rewrite !parseMidiData_control, Hd1, Hd2 by done.
  all: destruct (parseMidiData_tracedOnly _ data1 numBytes1 m Hf1 eq_refl) as [? ->];
       by destruct (parseMidiData_tracedOnly _ data2 numBytes2 m Hf2 eq_refl) as [? ->].
Qed.

(** ** The polling thread *)

(** A negative return value: the flag is cleared, the decoder is not entered,
    the thread sleeps once more. *)
Lemma loopBody_fatal r m :
  numMessagesReceived r < 0 →
  loopBody r m = ((), set_reading false m, [Usleep 500]).
Proof.
  intros Hneg. unfold loopBody.
  destruct (Z.ltb_spec (numMessagesReceived r) 0); [|lia].
  destruct (Z.ltb_spec 0 (numMessagesReceived r)); [lia|].
  reflexivity.
Qed.

(** Once [reading] is false the [while] condition fails whatever the
    transport would still deliver. *)
Lemma whileReading_stopped transport m :
  reading m = false → whileReading transport m = ((), m, []).
Proof.
  intros Hr. destruct transport as [|r rest]; [done|].
  cbn [whileReading]. by rewrite bind_get, Hr.
Qed.

Lemma whileReading_app before after m :
  whileReading (before ++ after) m
  = (whileReading before ;; whileReading after) m.
Proof.
  revert m. induction before as [|r before IH]; intros m.
  - cbn [app whileReading]. unfold skip. by rewrite bind_ret_l.
  - cbn [app whileReading]. rewrite bind_assoc, !bind_get.
    destruct (reading m) eqn:Hr.
    + rewrite bind_assoc. apply bind_ext. intros _ m1. apply IH.
    + unfold skip. by rewrite bind_ret_l, whileReading_stopped.
Qed.

(** The last iteration of a run that ends on a fatal receive. *)
Lemma whileReading_fatal r rest m :
  numMessagesReceived r < 0 →
  whileReading (r :: rest) m = whileReading [r] m
  ∧ reading (stateAfter (whileReading [r]) m) = false.
Proof.
  intros Hneg. unfold stateAfter. cbn [whileReading]. rewrite !bind_get.
  destruct (reading m) eqn:Hr; [|done].
  unfold bind. rewrite loopBody_fatal by done.
  by rewrite whileReading_stopped.
Qed.

(** C6. A fatal receive is terminal.  When an answer [r] of the transport has
    a negative return value, the iteration that receives it clears [reading],
    never enters the decoder (its whole log is the one [usleep]) and leaves
    the sustain flag and both note sets alone; from the state it leaves, the
    loop does nothing for whatever answers would follow.  So a run of the
    thread over [before ++ r :: rest] is its run over [before ++ [r]] and
    ends with [reading] false. *)
Theorem fatal_receive_is_terminal before r rest m :
  numMessagesReceived r < 0 →
  (∀ m0, loopBody r m0 = ((), set_reading false m0, [Usleep 500]))
  ∧ (∀ m0, whileReading rest (set_reading false m0) = ((), set_reading false m0, []))
  ∧ readThreadRoutine (before ++ r :: rest) m = readThreadRoutine (before ++ [r]) m
  ∧ reading (stateAfter (readThreadRoutine (before ++ r :: rest)) m) = false.
Proof.
  intros Hneg.
  split; [intros m0; by apply loopBody_fatal|].
  split; [intros m0; by apply whileReading_stopped|].
  unfold readThreadRoutine, stateAfter. rewrite !bind_modify, !whileReading_app.
  unfold bind. destruct (whileReading before (set_reading true m)) as [[[] m1] log1].
  destruct (whileReading_fatal r rest m1 Hneg) as [-> Hstop]. unfold stateAfter in Hstop.
  by destruct (whileReading [r] m1) as [[[] m2] log2].
Qed.

(** * Concrete runs *)

(** Round trip with the pedal up: one note-on, one note-off, both sets empty. *)
Example round_trip :
  let run := feed [[0x90; 60; 100]; [0x80; 60; 0]] MidiManager_new in
  engineCalls run.2 = [SynthNoteOn 60 100; SynthNoteOff 60]
  ∧ run.1.2 = MidiManager_new.
Proof. by vm_compute. Qed.

(** Sustain catch: the stop waits for the pedal to come up. *)
Example sustain_catch :
  engineCalls (logOf (feed [[0x90; 60; 100]; [0xB0; 64; 127]; [0x80; 60; 0]])
                 MidiManager_new)
  = [SynthNoteOn 60 100]
  ∧ feed [[0x90; 60; 100]; [0xB0; 64; 127]; [0x80; 60; 0]; [0xB0; 64; 0]]
      MidiManager_new
    = ((), MidiManager_new,
       [Callback "Note ON: 60 vel: 100"; SynthNoteOn 60 100;
        Callback "Sustain ON: level: 127";
        Callback "Note OFF: 60";
        Callback "Sustain OFF: level: 0"; SynthNoteOff 60]).
Proof. by vm_compute. Qed.

(** A key held through the release of the pedal is stopped by its own
    NoteOff only. *)
Example held_through_pedal_release :
  engineCalls (logOf (feed [[0x90; 60; 100]; [0xB0; 64; 127]; [0xB0; 64; 0]])
                 MidiManager_new)
  = [SynthNoteOn 60 100]
  ∧ engineCalls (logOf (feed [[0x90; 60; 100]; [0xB0; 64; 127]; [0xB0; 64; 0];
                              [0x80; 60; 0]]) MidiManager_new)
    = [SynthNoteOn 60 100; SynthNoteOff 60].
Proof. by vm_compute. Qed.

(** Latched notes are stopped in ascending order, held ones are skipped. *)
Example release_order :
  logOf (parseMidiData [0xB0; 64; 0] 3)
    (mkMidiManager true true {[64]} {[67; 60; 64; 62]})
  = [Callback "Sustain OFF: level: 0";
     SynthNoteOff 60; SynthNoteOff 62; SynthNoteOff 67].
Proof. by vm_compute. Qed.

(** The reverb controller reaches the engine and leaves the pedal alone. *)
Example reverb_forwarded :
  parseMidiData [0xB0; 91; 64] 3 held60_latched62
  = ((), held60_latched62, [Callback "Reverb: level: 64"; SynthReverb 64]).
Proof. by vm_compute. Qed.

(** The thread stops at the first negative answer; what would follow is not
    decoded. *)
Example thread_stops :
  readThreadRoutine
    [mkReceived 1 1 [0x90; 60; 100] 3; mkReceived 0 0 [0x90; 60; 100] 0;
     mkReceived (-1) 1 [0x90; 61; 100] 3; mkReceived 1 1 [0x90; 62; 100] 3]
    MidiManager_new
  = ((), mkMidiManager false false {[60]} ∅,
     [Callback "Note ON: 60 vel: 100"; SynthNoteOn 60 100; Usleep 500;
      Usleep 500; Usleep 500]).
Proof. by vm_compute. Qed.

Lemma reachable_key60_then_pedal : reachable key60_then_pedal.
Proof. apply reach_frame, reach_frame, reach_new. Defined.

Lemma pedal_up_reconciliation_witness :
  isPedalUp [0xB0; 64; 0] 3
  ∧ (let m := held60_latched62 in
     let m' := stateAfter (parseMidiData [0xB0; 64; 0] 3) m in
     let log := logOf (parseMidiData [0xB0; 64; 0] 3) m in
     sustain m' = false
     ∧ (∀ n, noteOffCount n log
             = if decide (n ∈ sustainNotes m ∧ n ∉ playNotes m) then 1%nat else 0%nat)
     ∧ engineCalls log
       = SynthNoteOff <$> filter (λ n, n ∉ playNotes m) (ascending (sustainNotes m))
     ∧ sustainNotes m' = ∅
     ∧ playNotes m' = playNotes m).
Proof.
  assert (isPedalUp [0xB0; 64; 0] 3) as Hup by frame_facts.
  split; [exact Hup|].
  exact (pedal_up_reconciliation held60_latched62 [0xB0; 64; 0] 3 Hup).
Defined.

Lemma pedal_down_catch_witness :
  isPedalDown [0xB0; 64; 127] 3
  ∧ (let m := mkMidiManager true false {[60; 64]} ∅ in
     let m' := stateAfter (parseMidiData [0xB0; 64; 127] 3) m in
     let log := logOf (parseMidiData [0xB0; 64; 127] 3) m in
     sustain m' = true
     ∧ sustainNotes m' = sustainNotes m ∪ playNotes m
     ∧ playNotes m ⊆ sustainNotes m'
     ∧ engineCalls log = []
     ∧ playNotes m' = playNotes m).
Proof.
  assert (isPedalDown [0xB0; 64; 127] 3) as Hdown by frame_facts.
  split; [exact Hdown|].
  exact (pedal_down_catch (mkMidiManager true false {[60; 64]} ∅) [0xB0; 64; 127] 3 Hdown).
Defined.

Lemma pedal_down_idempotent_witness :
  isPedalDown [0xB0; 64; 127] 3 ∧ isPedalDown [0xB3; 64; 64] 3
  ∧ (let m1 := stateAfter (parseMidiData [0xB0; 64; 127] 3)
                 (mkMidiManager true false {[60]} ∅) in
     stateAfter (parseMidiData [0xB3; 64; 64] 3) m1 = m1
     ∧ engineCalls (logOf (parseMidiData [0xB3; 64; 64] 3) m1) = []).
Proof.
  assert (isPedalDown [0xB0; 64; 127] 3) as H1 by frame_facts.
  assert (isPedalDown [0xB3; 64; 64] 3) as H2 by frame_facts.
  split; [exact H1|]. split; [exact H2|].
  exact (pedal_down_idempotent (mkMidiManager true false {[60]} ∅)
           [0xB0; 64; 127] 3 [0xB3; 64; 64] 3 H1 H2).
Defined.

Lemma noteOff_by_sustain_flag_witness :
  isFrame CaseNoteOff [0x80; 60; 0] 3
  ∧ data1Of [0x80; 60; 0] ∈ playNotes key60_then_pedal
  ∧ (let m := key60_then_pedal in
     let n := data1Of [0x80; 60; 0] in
     let m' := stateAfter (parseMidiData [0x80; 60; 0] 3) m in
     let log := logOf (parseMidiData [0x80; 60; 0] 3) m in
     playNotes m' = playNotes m ∖ {[n]}
     ∧ (n ∉ playNotes m')
     ∧ (if sustain m
        then engineCalls log = []
             ∧ sustainNotes m' = sustainNotes m
             ∧ (reachable m → n ∈ sustainNotes m')
        else engineCalls log = [SynthNoteOff n]
             ∧ noteOffCount n log = 1%nat
             ∧ sustainNotes m' = sustainNotes m ∖ {[n]}
             ∧ n ∉ sustainNotes m')).
Proof.
  assert (isFrame CaseNoteOff [0x80; 60; 0] 3) as Hf by frame_facts.
  assert (data1Of [0x80; 60; 0] ∈ playNotes key60_then_pedal) as Hheld
    by (apply (bool_decide_unpack _); vm_compute; exact I).
  split; [exact Hf|]. split; [exact Hheld|].
  exact (noteOff_by_sustain_flag key60_then_pedal [0x80; 60; 0] 3 Hf Hheld).
Defined.

Lemma noteOn_any_velocity_witness :
  isFrame CaseNoteOn [0x90; 60; 0] 3
  ∧ data2Of [0x90; 60; 0] = 0
  ∧ (let m := held60_latched62 in
     let n := data1Of [0x90; 60; 0] in
     let velocity := data2Of [0x90; 60; 0] in
     let m' := stateAfter (parseMidiData [0x90; 60; 0] 3) m in
     let log := logOf (parseMidiData [0x90; 60; 0] 3) m in
     playNotes m' = {[n]} ∪ playNotes m
     ∧ sustainNotes m'
       = (if sustain m then {[n]} ∪ sustainNotes m else sustainNotes m)
     ∧ engineCalls log = [SynthNoteOn n velocity]
     ∧ (∀ k, noteOffCount k log = 0%nat)
     ∧ playNotes m ⊆ playNotes m'
     ∧ sustainNotes m ⊆ sustainNotes m'
     ∧ sustain m' = sustain m).
Proof.
  assert (isFrame CaseNoteOn [0x90; 60; 0] 3) as Hf by frame_facts.
  split; [exact Hf|]. split; [reflexivity|].
  exact (noteOn_any_velocity held60_latched62 [0x90; 60; 0] 3 Hf).
Defined.

Lemma short_frame_dropped_witness :
  (2 < 3)%N
  ∧ stateAfter (parseMidiData [0x90; 60] 2) held60_latched62 = held60_latched62
  ∧ logOf (parseMidiData [0x90; 60] 2) held60_latched62 = []
  ∧ engineCalls (logOf (parseMidiData [0x90; 60] 2) held60_latched62) = []
  ∧ traces (logOf (parseMidiData [0x90; 60] 2) held60_latched62) = [].
Proof.
  assert (2 < 3)%N as Hn by lia.
  split; [exact Hn|].
  exact (short_frame_dropped held60_latched62 [0x90; 60] 2 Hn).
Defined.

Lemma reachable_sustain_latches_playing_witness :
  reachable key60_then_pedal
  ∧ sustain key60_then_pedal = true
  ∧ playNotes key60_then_pedal ⊆ sustainNotes key60_then_pedal.
Proof.
  assert (sustain key60_then_pedal = true) as Hs by (vm_compute; reflexivity).
  split; [exact reachable_key60_then_pedal|]. split; [exact Hs|].
  exact (reachable_sustain_latches_playing key60_then_pedal
           reachable_key60_then_pedal Hs).
Defined.

Lemma reachable_sustain_off_empty_witness :
  reachable key60_released
  ∧ sustain key60_released = false
  ∧ sustainNotes key60_released = ∅
  ∧ ∀ data numBytes,
      isFrame CaseNoteOff data numBytes →
      sustainNotes key60_released ∖ {[data1Of data]} = sustainNotes key60_released
      ∧ sustainNotes (stateAfter (parseMidiData data numBytes) key60_released)
        = sustainNotes key60_released.
Proof.
  assert (reachable key60_released) as Hr
    by apply reach_frame, reach_frame, reachable_key60_then_pedal.
  assert (sustain key60_released = false) as Hs by (vm_compute; reflexivity).
  split; [exact Hr|]. split; [exact Hs|].
  exact (reachable_sustain_off_empty key60_released Hr Hs).
Defined.

Lemma channel_agnostic_witness :
  (3 ≤ 3)%N
  ∧ (∀ i, 4 ≤ i < 8 →
          Z.testbit (byteAt [0x90; 60; 100] 0) i = Z.testbit (byteAt [0x9F; 60; 100] 0) i)
  ∧ byteAt [0x90; 60; 100] 1 = byteAt [0x9F; 60; 100] 1
  ∧ byteAt [0x90; 60; 100] 2 = byteAt [0x9F; 60; 100] 2
  ∧ switchCase (chanCmd (statusOf [0x90; 60; 100]))
    = switchCase (chanCmd (statusOf [0x9F; 60; 100]))
  ∧ stateAfter (parseMidiData [0x90; 60; 100] 3) held60_latched62
    = stateAfter (parseMidiData [0x9F; 60; 100] 3) held60_latched62
  ∧ engineCalls (logOf (parseMidiData [0x90; 60; 100] 3) held60_latched62)
    = engineCalls (logOf (parseMidiData [0x9F; 60; 100] 3) held60_latched62).
Proof.
  assert (3 ≤ 3)%N as Hn by lia.
  assert (∀ i, 4 ≤ i < 8 →
            Z.testbit (byteAt [0x90; 60; 100] 0) i
            = Z.testbit (byteAt [0x9F; 60; 100] 0) i) as Hbits.
  { intros i Hi.
    assert (i = 4 ∨ i = 5 ∨ i = 6 ∨ i = 7) as [->|[->|[->| ->]]] by lia;
      reflexivity. }
  split; [exact Hn|]. split; [exact Hbits|].
  split; [reflexivity|]. split; [reflexivity|].
  exact (channel_agnostic held60_latched62 [0x90; 60; 100] 3 [0x9F; 60; 100] 3
           Hn Hn Hbits eq_refl eq_refl).
Defined.

Lemma fatal_receive_is_terminal_witness :
  let before := [mkReceived 1 1 [0x90; 60; 100] 3] in
  let r := mkReceived (-1) 1 [0x90; 61; 100] 3 in
  let rest := [mkReceived 1 1 [0x90; 62; 100] 3] in
  numMessagesReceived r < 0
  ∧ (∀ m0, loopBody r m0 = ((), set_reading false m0, [Usleep 500]))
  ∧ (∀ m0, whileReading rest (set_reading false m0) = ((), set_reading false m0, []))
  ∧ readThreadRoutine (before ++ r :: rest) MidiManager_new
    = readThreadRoutine (before ++ [r]) MidiManager_new
  ∧ reading (stateAfter (readThreadRoutine (before ++ r :: rest)) MidiManager_new) = false.
Proof.
  intros before r rest.
  assert (numMessagesReceived r < 0) as Hneg by reflexivity.
  split; [exact Hneg|].
  exact (fatal_receive_is_terminal before r rest MidiManager_new Hneg).
Defined.

(** * Further properties of the decoder *)

(** ** Closed forms of the remaining cases *)

Lemma parseMidiCmdControl_other_log controller value m :
  controller ≠ 64 →
  parseMidiCmdControl controller value m = ((), m, otherControlLog controller value).
Proof.
  intros Hc. unfold parseMidiCmdControl, otherControlLog.
  destruct (Z.eqb_spec controller kMIDIControl_Sustain) as [He|_]; [done|].
  destruct (controller =? kMIDIControl_Reverb);
    unfold bind; by rewrite sendToCallback_nonempty.
Qed.

Lemma parseMidiData_tracedOnly_log c data numBytes m :
  isFrame c data numBytes → tracedOnly c = true →
  parseMidiData data numBytes m
  = ((), m, [Callback (describe (traceLabel c) (data1Of data) (data2Of data)
                         (statusOf data))]).
Proof.
  intros Hf Hc. rewrite (parseMidiData_case _ _ _ Hf). cbv zeta.
  destruct c; try discriminate Hc; unfold describe, traceLabel;
    by rewrite sendToCallback_nonempty.
Qed.


Lemma data_byte_range data i : isByte (Z.land (byteAt data i) 0xFF).
Proof.
  unfold isByte. change 0xFF with (Z.ones 8). rewrite Z.land_ones by lia.
  change (2 ^ 8) with 256. change (Z.ones 8) with 255.
  pose proof (Z.mod_pos_bound (byteAt data i) 256). lia.
Qed.

(** Every frame falls under one of seven closed forms of the decoder. *)
Lemma parseMidiData_cases data numBytes :
  ((numBytes < 3)%N ∧ ∀ m, parseMidiData data numBytes m = ((), m, []))
  ∨ (isFrame CaseNoteOff data numBytes
     ∧ ∀ m, parseMidiData data numBytes m
       = ((), mkMidiManager (reading m) (sustain m)
                (playNotes m ∖ {[data1Of data]})
                (if sustain m then sustainNotes m
                 else sustainNotes m ∖ {[data1Of data]}),
          noteOffLog (data1Of data) m))
  ∨ (isFrame CaseNoteOn data numBytes
     ∧ ∀ m, parseMidiData data numBytes m
       = ((), mkMidiManager (reading m) (sustain m)
                ({[data1Of data]} ∪ playNotes m)
                (if sustain m then {[data1Of data]} ∪ sustainNotes m
                 else sustainNotes m),
          [Callback ("Note ON: " +:+ dec (data1Of data)
                     +:+ " vel: " +:+ dec (data2Of data));
           SynthNoteOn (data1Of data) (data2Of data)]))
  ∨ (isPedalUp data numBytes
     ∧ ∀ m, parseMidiData data numBytes m
       = ((), mkMidiManager (reading m) false (playNotes m) ∅,
          pedalUpLog (data2Of data) m))
  ∨ (isPedalDown data numBytes
     ∧ ∀ m, parseMidiData data numBytes m
       = ((), mkMidiManager (reading m) true (playNotes m)
                (sustainNotes m ∪ playNotes m),
          [Callback ("Sustain ON: level: " +:+ dec (data2Of data))]))
  ∨ ((isFrame CaseControl data numBytes ∧ data1Of data ≠ 64)
     ∧ ∀ m, parseMidiData data numBytes m
       = ((), m, otherControlLog (data1Of data) (data2Of data)))
  ∨ (∃ c, (isFrame c data numBytes ∧ tracedOnly c = true)
     ∧ ∀ m, parseMidiData data numBytes m
       = ((), m, [Callback (describe (traceLabel c) (data1Of data)
                              (data2Of data) (statusOf data))])).
Proof.
  destruct (N.lt_ge_cases numBytes 3) as [Hn|Hn].
  { left. split; [done|]. intros m. by apply parseMidiData_short. }
  right. pose proof (isFrame_total data _ Hn) as Hf.
  destruct (switchCase (chanCmd (statusOf data))) eqn:Hc.
  1: { left. split; [done|]. intros m. by apply parseMidiData_noteOff. }
  1: { right; left. split; [done|]. intros m. by apply parseMidiData_noteOn. }
  1: { do 2 right.
       destruct (decide (data1Of data = 64)) as [Hd|Hd].
       - destruct (Z.lt_ge_cases (data2Of data) 64) as [Hv|Hv].
         + left. split; [done|]. intros m.
           rewrite parseMidiData_control, Hd by done.
           by apply parseMidiCmdControl_pedal_up.
         + right; left. split; [done|]. intros m.
           rewrite parseMidiData_control, Hd by done.
           by apply parseMidiCmdControl_pedal_down.
       - do 2 right; left. split; [done|]. intros m.
         rewrite parseMidiData_control by done.
         by apply parseMidiCmdControl_other_log. }
  all: do 5 right; eexists; split; [by split|]; intros m;
       by apply parseMidiData_tracedOnly_log.
Qed.

(** Splits on the closed form of a frame and rewrites the decoder with it. *)
Ltac frame_cases data numBytes :=
  let Hcase := fresh "Hcase" in
  let Heq := fresh "Heq" in
  let c := fresh "c" in
  destruct (parseMidiData_cases data numBytes)
    as [[Hcase Heq]|[[Hcase Heq]|[[Hcase Heq]|[[Hcase Heq]|[[Hcase Heq]|
        [[Hcase Heq]|[c [Hcase Heq]]]]]]]];
  rewrite ?Heq.


(** ** What the decoder never does *)


(** X2. A Control frame for a controller other than 64 changes no field and
    makes exactly one engine call: [reverb(value)] for controller 91,
    [sendCC(controller, value)] for every other one. *)
Theorem other_controllers_forwarded m data numBytes :
  isFrame CaseControl data numBytes →
  data1Of data ≠ 64 →
  stateAfter (parseMidiData data numBytes) m = m
  ∧ engineCalls (logOf (parseMidiData data numBytes) m)
    = [if decide (data1Of data = 91) then SynthReverb (data2Of data)
       else SynthSendCC (data1Of data) (data2Of data)].
Proof.
  intros Hf Hc. unfold stateAfter, logOf.
  rewrite parseMidiData_control, parseMidiCmdControl_other_log by done.
  split; [done|]. unfold otherControlLog, kMIDIControl_Reverb.
  destruct (Z.eqb_spec (data1Of data) 91) as [He|He].
  - by rewrite decide_True by done.
  - by rewrite decide_False by done.
Qed.


Lemma parseMidiData_reading data numBytes m :
  reading (stateAfter (parseMidiData data numBytes) m) = reading m.
Proof. unfold stateAfter. by frame_cases data numBytes. Qed.

(** X4. The decoder never writes the [reading] flag, and the sustain flag
    keeps its value unless the frame is a Control frame for controller 64. *)
Theorem decoder_keeps_flags m data numBytes :
  reading (stateAfter (parseMidiData data numBytes) m) = reading m
  ∧ (sustain (stateAfter (parseMidiData data numBytes) m) = sustain m
     ∨ isFrame CaseControl data numBytes ∧ data1Of data = 64).
Proof.
  unfold stateAfter.
  frame_cases data numBytes; cbn; auto.
  all: split; [done|]; right; by destruct Hcase as (? & ? & ?).
Qed.

(** X5. A held key is never cut.  Whatever the state and the frame, when the
    frame makes the engine stop a note, that note is not in [playNotes] once
    the frame is decoded. *)
Theorem held_note_never_cut m data numBytes n :
  SynthNoteOff n ∈ logOf (parseMidiData data numBytes) m →
  n ∉ playNotes (stateAfter (parseMidiData data numBytes) m).
Proof.
  unfold stateAfter, logOf.
  frame_cases data numBytes;
    cbn [fst snd playNotes].
  - by intros ?%elem_of_nil.
  - unfold noteOffLog. destruct (sustain m); set_solver.
  - set_solver.
  - unfold pedalUpLog. rewrite elem_of_cons, list_elem_of_fmap.
    intros [?|(k & [= ->] & Hk%list_elem_of_filter)]; [done|]. tauto.
  - set_solver.
  - unfold otherControlLog. destruct (_ =? _); set_solver.
  - set_solver.
Qed.

(** ** More on the pedal *)

Lemma ascending_empty : ascending ∅ = [].
Proof. unfold ascending. by rewrite elements_empty. Qed.

(** X6. Pedal-up idempotence.  After one pedal-up frame a second one
    (whatever its channel and its value below 64) leaves every field as the
    first left it and calls the engine not at all. *)
Theorem pedal_up_idempotent m data1 numBytes1 data2 numBytes2 :
  isPedalUp data1 numBytes1 →
  isPedalUp data2 numBytes2 →
  let m1 := stateAfter (parseMidiData data1 numBytes1) m in
  stateAfter (parseMidiData data2 numBytes2) m1 = m1
  ∧ engineCalls (logOf (parseMidiData data2 numBytes2) m1) = [].
Proof.
  intros (Hf1 & Hc1 & Hv1) (Hf2 & Hc2 & Hv2). cbv zeta. unfold stateAfter, logOf.
  rewrite (parseMidiData_control data1), Hc1, parseMidiCmdControl_pedal_up by done.
  rewrite (parseMidiData_control data2), Hc2, parseMidiCmdControl_pedal_up by done.
  cbn [fst snd reading sustain sustainNotes playNotes]. split; [done|].
  rewrite engineCalls_pedalUpLog. cbn [sustainNotes]. by rewrite ascending_empty.
Qed.

(** X12. Pressing and releasing the pedal with the keys untouched is silent.
    From a reachable state with the pedal up, a pedal-down frame followed by
    a pedal-up frame calls the engine not at all and restores every field:
    the notes the pedal caught are all still held. *)
Theorem pedal_press_release_silent m down numBytes1 up numBytes2 :
  reachable m → sustain m = false →
  isPedalDown down numBytes1 →
  isPedalUp up numBytes2 →
  let m1 := stateAfter (parseMidiData down numBytes1) m in
  stateAfter (parseMidiData up numBytes2) m1 = m
  ∧ engineCalls (logOf (parseMidiData down numBytes1) m) = []
  ∧ engineCalls (logOf (parseMidiData up numBytes2) m1) = [].
Proof.
  intros Hr Hs (Hf1 & Hc1 & Hv1) (Hf2 & Hc2 & Hv2). cbv zeta.
  destruct (reachable_notesInv m Hr) as [_ Hup]. specialize (Hup Hs).
  unfold stateAfter, logOf.
  rewrite (parseMidiData_control down), Hc1, parseMidiCmdControl_pedal_down by done.
  rewrite (parseMidiData_control up), Hc2, parseMidiCmdControl_pedal_up by done.
  cbn [fst snd reading sustain sustainNotes playNotes].
  split; [|split; [done|]].
  - destruct m as [r s p u]. cbn in *. by subst.
  - rewrite engineCalls_pedalUpLog. cbn [sustainNotes playNotes].
    rewrite Hup, union_empty_l_L.
    destruct (filter _ _) as [|k l] eqn:Hfilter; [done|].
    assert (k ∈ filter (λ n, n ∉ playNotes m) (ascending (playNotes m))) as Hk
      by (rewrite Hfilter; left).
    apply list_elem_of_filter in Hk as [Hk1 Hk2]. by apply ascending_elem in Hk2.
Qed.

(** ** Key strokes *)

(** X13. A key stroke with the pedal up is a round trip.  From a reachable
    state with the pedal up, NoteOn for a key that is not held followed by
    NoteOff for the same key makes the engine start the note with the given
    velocity and then stop it, and restores every field. *)
Theorem key_stroke_round_trip m on numBytes1 off numBytes2 :
  reachable m → sustain m = false →
  isFrame CaseNoteOn on numBytes1 →
  isFrame CaseNoteOff off numBytes2 →
  data1Of off = data1Of on →
  data1Of on ∉ playNotes m →
  let m1 := stateAfter (parseMidiData on numBytes1) m in
  stateAfter (parseMidiData off numBytes2) m1 = m
  ∧ engineCalls (logOf (parseMidiData on numBytes1) m)
    = [SynthNoteOn (data1Of on) (data2Of on)]
  ∧ engineCalls (logOf (parseMidiData off numBytes2) m1)
    = [SynthNoteOff (data1Of on)].
Proof.
  intros Hr Hs Hon Hoff Hsame Hfree. cbv zeta.
  destruct (reachable_notesInv m Hr) as [_ Hup]. specialize (Hup Hs).
  unfold stateAfter, logOf.
  rewrite (parseMidiData_noteOn on), (parseMidiData_noteOff off), Hsame by done.
  cbn [fst snd reading sustain sustainNotes playNotes]. unfold noteOffLog.
  cbn [sustain]. rewrite Hs. split; [|by split].
  destruct m as [r s p u]. cbn in *. subst. f_equal; set_solver.
Qed.

(** X14. Striking a held key again.  A second NoteOn for a key that is already
    held leaves every field as the first left it, since a set holds a note
    once, while the engine is asked to start the note again. *)
Theorem noteOn_retrigger m on1 numBytes1 on2 numBytes2 :
  isFrame CaseNoteOn on1 numBytes1 →
  isFrame CaseNoteOn on2 numBytes2 →
  data1Of on2 = data1Of on1 →
  let m1 := stateAfter (parseMidiData on1 numBytes1) m in
  stateAfter (parseMidiData on2 numBytes2) m1 = m1
  ∧ engineCalls (logOf (parseMidiData on2 numBytes2) m1)
    = [SynthNoteOn (data1Of on1) (data2Of on2)].
Proof.
  intros Hon1 Hon2 Hsame. cbv zeta. unfold stateAfter, logOf.
  rewrite (parseMidiData_noteOn on1), (parseMidiData_noteOn on2), Hsame by done.
  cbn [fst snd reading sustain sustainNotes playNotes]. split; [|done].
  f_equal; [set_solver|]. destruct (sustain m); set_solver.
Qed.

(** ** The engine sounds what the two sets hold *)





Lemma reachable_parseAll frames m :
  reachable m → reachable (stateAfter (parseAll frames) m).
Proof.
  revert m. induction frames as [|[data numBytes] frames IH]; intros m Hr; [done|].
  unfold stateAfter. cbn [parseAll]. unfold bind.
  pose proof (reach_frame m data numBytes Hr) as Hstep.
  unfold stateAfter in Hstep.
  destruct (parseMidiData data numBytes m) as [[[] m1] log1].
  specialize (IH m1 Hstep). unfold stateAfter in IH.
  by destruct (parseAll frames m1) as [[[] m2] log2].
Qed.



(** ** Note numbers and call arguments *)

Lemma bytes_parseMidiData data numBytes m :
  (∀ n, n ∈ playNotes m ∪ sustainNotes m → isByte n) →
  ∀ n, n ∈ playNotes (stateAfter (parseMidiData data numBytes) m)
           ∪ sustainNotes (stateAfter (parseMidiData data numBytes) m) →
       isByte n.
Proof.
  intros Hm n. unfold stateAfter.
  pose proof (data_byte_range data 1) as Hnote. fold (data1Of data) in Hnote.
  frame_cases data numBytes; cbn [fst snd playNotes sustainNotes];
    try (by apply Hm).
  - intros Hn. apply Hm. destruct (sustain m); set_solver.
  - intros Hn.
    assert (n = data1Of data ∨ n ∈ playNotes m ∪ sustainNotes m) as [->|?]
      by (destruct (sustain m); set_solver); auto.
  - intros Hn. apply Hm. set_solver.
  - intros Hn. apply Hm. set_solver.
Qed.

Lemma reachable_bytes m :
  reachable m → ∀ n, n ∈ playNotes m ∪ sustainNotes m → isByte n.
Proof.
  induction 1 as [|m b _ IH|m data numBytes _ IH].
  - set_solver.
  - exact IH.
  - by apply bytes_parseMidiData.
Qed.

(** X8. Note numbers and call arguments fit a byte.  In every reachable
    state each member of [playNotes] and of [sustainNotes] lies in 0..255,
    and every argument of every engine call a frame provokes lies in 0..255:
    the decoder masks what it reads with 0xFF and checks nothing further. *)
Theorem engine_arguments_are_bytes m data numBytes :
  reachable m →
  (∀ n, n ∈ playNotes m ∪ sustainNotes m → isByte n)
  ∧ Forall byteArgs (logOf (parseMidiData data numBytes) m).
Proof.
  intros Hr. pose proof (reachable_bytes m Hr) as Hm. split; [done|].
  pose proof (data_byte_range data 1) as Hnote. fold (data1Of data) in Hnote.
  pose proof (data_byte_range data 2) as Hvel. fold (data2Of data) in Hvel.
  unfold logOf. frame_cases data numBytes; cbn [snd].
  - constructor.
  - unfold noteOffLog. destruct (sustain m);
      rewrite ?Forall_cons, ?Forall_nil; cbn [byteArgs]; tauto.
  - rewrite ?Forall_cons, ?Forall_nil; cbn [byteArgs]; tauto.
  - unfold pedalUpLog. apply Forall_cons. split; [done|].
    apply Forall_fmap, Forall_forall. intros k Hk.
    apply list_elem_of_filter in Hk as [_ Hk]. apply ascending_elem in Hk.
    cbn. apply Hm. set_solver.
  - rewrite ?Forall_cons, ?Forall_nil; cbn [byteArgs]; tauto.
  - unfold otherControlLog. destruct (_ =? _);
      rewrite ?Forall_cons, ?Forall_nil; cbn [byteArgs]; tauto.
  - rewrite ?Forall_cons, ?Forall_nil; cbn [byteArgs]; tauto.
Qed.

(** ** A key released under the pedal *)

(** X21. A key released while the pedal is down sounds until the pedal comes
    up.  In a reachable state with the pedal down, NoteOff for a held key
    calls the engine not at all; if the pedal is released next, that frame
    stops the note exactly once, and afterwards the note is in neither set. *)
Theorem released_under_pedal_stops_at_pedal_up m off numBytes1 up numBytes2 :
  reachable m → sustain m = true →
  isFrame CaseNoteOff off numBytes1 →
  data1Of off ∈ playNotes m →
  isPedalUp up numBytes2 →
  let n := data1Of off in
  let m1 := stateAfter (parseMidiData off numBytes1) m in
  let m2 := stateAfter (parseMidiData up numBytes2) m1 in
  engineCalls (logOf (parseMidiData off numBytes1) m) = []
  ∧ noteOffCount n (logOf (parseMidiData up numBytes2) m1) = 1%nat
  ∧ n ∉ playNotes m2 ∪ sustainNotes m2.
Proof.
  intros Hr Hs Hoff Hheld (Hf & Hc & Hv). cbv zeta.
  destruct (reachable_notesInv m Hr) as [Hdown _]. specialize (Hdown Hs).
  unfold stateAfter, logOf.
  rewrite (parseMidiData_noteOff off) by done.
  rewrite (parseMidiData_control up), Hc, parseMidiCmdControl_pedal_up by done.
  cbn [fst snd reading sustain sustainNotes playNotes]. unfold noteOffLog.
  rewrite Hs. split; [done|]. split; [|set_solver].
  rewrite noteOffCount_pedalUpLog. cbn [sustainNotes playNotes].
  apply decide_True. set_solver.
Qed.

(** * Further properties of the polling thread *)

Lemma loopBody_nonfatal r m :
  0 ≤ numMessagesReceived r →
  loopBody r m
  = ((), (if accepted r
          then stateAfter (parseMidiData (incomingMessage r) (numBytesReceived r)) m
          else m),
     (if accepted r
      then logOf (parseMidiData (incomingMessage r) (numBytesReceived r)) m
      else []) ++ [Usleep 500]).
Proof.
  intros Hok. unfold loopBody. fold (accepted r).
  destruct (Z.ltb_spec (numMessagesReceived r) 0); [lia|].
  unfold skip at 1. rewrite bind_ret_l. unfold stateAfter, logOf, bind.
  destruct (accepted r).
  - by destruct (parseMidiData _ _ m) as [[[] m1] log1].
  - done.
Qed.

Lemma accepted_fatal r : numMessagesReceived r < 0 → accepted r = false.
Proof.
  intros Hneg. unfold accepted.
  by destruct (Z.ltb_spec 0 (numMessagesReceived r)); [lia|].
Qed.

(** A byte from 0xF0 to 0xFF has all of bits 4 to 7 set. *)
Lemma system_status_nibble b :
  0xF0 ≤ b ≤ 0xFF → Z.land b kMIDISysCmdChan = kMIDISysCmdChan.
Proof.
  intros Hb. unfold kMIDISysCmdChan.
  assert (b = 240 ∨ b = 241 ∨ b = 242 ∨ b = 243 ∨ b = 244 ∨ b = 245 ∨ b = 246
          ∨ b = 247 ∨ b = 248 ∨ b = 249 ∨ b = 250 ∨ b = 251 ∨ b = 252
          ∨ b = 253 ∨ b = 254 ∨ b = 255) as Hcases by lia.
  repeat (destruct Hcases as [->|Hcases]; [reflexivity|]). by subst.
Qed.

(** X9. What the thread keeps from the decoder.  An answer of the transport
    is not decoded when it carries no message (return value 0 or negative),
    when its opcode is not [AMIDI_OPCODE_DATA], or when the first byte of the
    buffer is a System status byte (0xF0 to 0xFF): the iteration then only
    sleeps, and the sustain flag and both note sets keep their values. *)
Theorem thread_drops_answer r m :
  numMessagesReceived r ≤ 0
  ∨ opcode r ≠ AMIDI_OPCODE_DATA
  ∨ 0xF0 ≤ byteAt (incomingMessage r) 0 ≤ 0xFF →
  logOf (loopBody r) m = [Usleep 500]
  ∧ noteState (stateAfter (loopBody r) m) = noteState m.
Proof.
  intros Hdrop.
  assert (accepted r = false) as Hacc.
  { unfold accepted. destruct Hdrop as [Hn|[Ho|Hb]].
    - by destruct (Z.ltb_spec 0 (numMessagesReceived r)); [lia|].
    - destruct (Z.eqb_spec (opcode r) AMIDI_OPCODE_DATA); [done|].
      by rewrite andb_false_r.
    - rewrite (system_status_nibble _ Hb), Z.eqb_refl. by rewrite andb_false_r. }
  unfold logOf, stateAfter.
  destruct (Z.lt_ge_cases (numMessagesReceived r) 0) as [Hneg|Hok].
  - by rewrite loopBody_fatal.
  - by rewrite loopBody_nonfatal, Hacc by lia.
Qed.

(** ** The thread as a run of the decoder *)

Lemma parseMidiData_set_reading data numBytes b m :
  parseMidiData data numBytes (set_reading b m)
  = ((), set_reading b (stateAfter (parseMidiData data numBytes) m),
     logOf (parseMidiData data numBytes) m).
Proof.
  unfold stateAfter, logOf. by frame_cases data numBytes.
Qed.

Lemma parseAll_set_reading frames b m :
  parseAll frames (set_reading b m)
  = ((), set_reading b (stateAfter (parseAll frames) m), logOf (parseAll frames) m).
Proof.
  revert m. induction frames as [|[data numBytes] frames IH]; intros m; [done|].
  unfold stateAfter, logOf. cbn [parseAll]. unfold bind.
  rewrite parseMidiData_set_reading. unfold stateAfter, logOf.
  destruct (parseMidiData data numBytes m) as [[[] m1] log1]. cbn [fst snd].
  rewrite IH. unfold stateAfter, logOf.
  by destruct (parseAll frames m1) as [[[] m2] log2].
Qed.

(** The decoder never sleeps. *)
Lemma withoutSleep_parseMidiData data numBytes m :
  withoutSleep (logOf (parseMidiData data numBytes) m)
  = logOf (parseMidiData data numBytes) m.
Proof.
  unfold logOf, withoutSleep. frame_cases data numBytes; cbn [snd]; try done.
  - unfold noteOffLog. by destruct (sustain m).
  - unfold pedalUpLog. rewrite filter_cons, decide_True by done. f_equal.
    induction (filter _ (ascending _)) as [|k l IH]; [done|].
    by rewrite fmap_cons, filter_cons, decide_True, IH by done.
  - unfold otherControlLog. by destruct (_ =? _).
Qed.

Lemma whileReading_cons_fatal r rest m :
  reading m = true → numMessagesReceived r < 0 →
  whileReading (r :: rest) m = ((), set_reading false m, [Usleep 500]).
Proof.
  intros Hr Hneg. cbn [whileReading]. rewrite bind_get, Hr.
  unfold bind. rewrite loopBody_fatal by done.
  by rewrite whileReading_stopped.
Qed.

Lemma whileReading_cons_accepted r rest m m1 log1 m2 log2 :
  reading m = true → 0 ≤ numMessagesReceived r → accepted r = true →
  parseMidiData (incomingMessage r) (numBytesReceived r) m = ((), m1, log1) →
  whileReading rest m1 = ((), m2, log2) →
  whileReading (r :: rest) m = ((), m2, log1 ++ Usleep 500 :: log2).
Proof.
  intros Hr Hok Hacc Hp Hw. cbn [whileReading]. rewrite bind_get, Hr.
  unfold bind. rewrite loopBody_nonfatal, Hacc by done.
  unfold stateAfter, logOf. rewrite Hp. cbn [fst snd]. rewrite Hw.
  by rewrite <- app_assoc.
Qed.

Lemma whileReading_cons_dropped r rest m m2 log2 :
  reading m = true → 0 ≤ numMessagesReceived r → accepted r = false →
  whileReading rest m = ((), m2, log2) →
  whileReading (r :: rest) m = ((), m2, Usleep 500 :: log2).
Proof.
  intros Hr Hok Hacc Hw. cbn [whileReading]. rewrite bind_get, Hr.
  unfold bind. rewrite loopBody_nonfatal, Hacc by done. by rewrite Hw.
Qed.

Lemma parseAll_cons data numBytes frames m m1 log1 m2 log2 :
  parseMidiData data numBytes m = ((), m1, log1) →
  parseAll frames m1 = ((), m2, log2) →
  parseAll ((data, numBytes) :: frames) m = ((), m2, log1 ++ log2).
Proof. intros Hp Ha. cbn [parseAll]. unfold bind. by rewrite Hp, Ha. Qed.

Lemma acceptedFrames_cons r rest :
  0 ≤ numMessagesReceived r →
  acceptedFrames (r :: rest)
  = if accepted r
    then (incomingMessage r, numBytesReceived r) :: acceptedFrames rest
    else acceptedFrames rest.
Proof.
  intros Hok. unfold acceptedFrames. cbn [beforeFatal].
  destruct (Z.ltb_spec (numMessagesReceived r) 0); [lia|].
  rewrite filter_cons. destruct (accepted r).
  - by rewrite decide_True by done.
  - by rewrite decide_False by done.
Qed.

Lemma sleeps_parseMidiData data numBytes m :
  filter (λ e, isUsleep e = true) (logOf (parseMidiData data numBytes) m) = [].
Proof.
  unfold logOf. frame_cases data numBytes; cbn [snd]; try done.
  - unfold noteOffLog. by destruct (sustain m).
  - unfold pedalUpLog. rewrite filter_cons, decide_False by done.
    induction (filter _ (ascending _)) as [|k l IH]; [done|].
    by rewrite fmap_cons, filter_cons, decide_False by done.
  - unfold otherControlLog. by destruct (_ =? _).
Qed.

(** The loop over a transport history, summed up. *)
Lemma whileReading_summary transport m :
  reading m = true →
  noteState (stateAfter (whileReading transport) m)
  = noteState (stateAfter (parseAll (acceptedFrames transport)) m)
  ∧ withoutSleep (logOf (whileReading transport) m)
    = logOf (parseAll (acceptedFrames transport)) m
  ∧ reading (stateAfter (whileReading transport) m)
    = forallb (λ r, 0 <=? numMessagesReceived r) transport
  ∧ length (filter (λ e, isUsleep e = true) (logOf (whileReading transport) m))
    = length (iterations transport).
Proof.
  revert m. induction transport as [|r rest IH]; intros m Hr; [done|].
  cbn [iterations forallb].
  destruct (Z.lt_ge_cases (numMessagesReceived r) 0) as [Hneg|Hok].
  - unfold stateAfter, logOf, acceptedFrames.
    rewrite whileReading_cons_fatal by done. cbn [beforeFatal].
    destruct (Z.ltb_spec (numMessagesReceived r) 0); [|lia].
    by destruct (Z.leb_spec 0 (numMessagesReceived r)); [lia|].
  - destruct (Z.ltb_spec (numMessagesReceived r) 0); [lia|].
    destruct (Z.leb_spec 0 (numMessagesReceived r)); [|lia].
    rewrite acceptedFrames_cons by done. destruct (accepted r) eqn:Hacc.
    + pose proof (withoutSleep_parseMidiData (incomingMessage r)
                    (numBytesReceived r) m) as Hws.
      pose proof (sleeps_parseMidiData (incomingMessage r)
                    (numBytesReceived r) m) as Hns.
      pose proof (parseMidiData_reading (incomingMessage r)
                    (numBytesReceived r) m) as Hr1.
      unfold stateAfter, logOf in Hws, Hns, Hr1.
      destruct (parseMidiData (incomingMessage r) (numBytesReceived r) m)
        as [[[] m1] log1] eqn:Hp. cbn [fst snd] in Hws, Hns, Hr1.
      rewrite Hr in Hr1. specialize (IH m1 Hr1). unfold stateAfter, logOf in *.
      destruct (whileReading rest m1) as [[[] m2] log2] eqn:Hw.
      destruct (parseAll (acceptedFrames rest) m1) as [[[] m3] log3] eqn:Ha.
      rewrite (whileReading_cons_accepted r rest m m1 log1 m2 log2) by done.
      rewrite (parseAll_cons _ _ _ m m1 log1 m3 log3) by done.
      cbn [fst snd] in *. destruct IH as (Hst & Hlog & Hrd & Hsl).
      unfold withoutSleep in *.
      rewrite !filter_app, !filter_cons, Hws, Hns, Hlog.
      rewrite decide_False, decide_True by done. cbn [app length andb].
      by rewrite Hsl.
    + specialize (IH m Hr). unfold stateAfter, logOf in *.
      destruct (whileReading rest m) as [[[] m2] log2] eqn:Hw.
      rewrite (whileReading_cons_dropped r rest m m2 log2) by done.
      cbn [fst snd] in *. destruct IH as (Hst & Hlog & Hrd & Hsl).
      unfold withoutSleep in *.
      rewrite !filter_cons, Hlog, decide_False, decide_True by done.
      cbn [length andb]. by rewrite Hsl.
Qed.

(** X10. The thread is the decoder run over the accepted answers.  Over any
    history of transport answers, the thread leaves the sustain flag and both
    note sets as the decoder does when it is handed, in order, the buffers of
    the answers before the first negative one that carry a message, have the
    data opcode and do not start with a System status byte; and apart from
    its sleeps the thread's log is the log of that run. *)
Theorem thread_decodes_accepted_frames transport m :
  noteState (stateAfter (readThreadRoutine transport) m)
  = noteState (stateAfter (parseAll (acceptedFrames transport)) m)
  ∧ withoutSleep (logOf (readThreadRoutine transport) m)
    = logOf (parseAll (acceptedFrames transport)) m.
Proof.
  destruct (whileReading_summary transport (set_reading true m) eq_refl)
    as (Hst & Hlog & _).
  unfold readThreadRoutine, stateAfter, logOf in *.
  rewrite parseAll_set_reading in Hst, Hlog. rewrite bind_modify. done.
Qed.


(** * Properties of the synthesizer wrapper *)

Lemma serve_unavailable q s :
  SynthManager.synth s = 0 → SynthManager.serve q s = (s, []).
Proof.
  intros Hs. destruct q; cbn;
    unfold SynthManager.loadSF, SynthManager.programChange, SynthManager.noteOn,
      SynthManager.noteOff, SynthManager.reverb, SynthManager.sendCC;
    by rewrite Hs.
Qed.

Lemma serveAll_unavailable qs s :
  SynthManager.synth s = 0 → SynthManager.serveAll qs s = (s, []).
Proof.
  intros Hs. induction qs as [|q qs IH]; [done|].
  cbn [SynthManager.serveAll]. by rewrite serve_unavailable, IH.
Qed.

(** X15. A synth that could not be created silences the wrapper.  When
    [new_fluid_settings] succeeds and [new_fluid_synth] returns [nullptr], the
    constructor deletes the settings and leaves the [synth] field null; from
    then on no request of the owner reaches FluidSynth or changes a field,
    and [loadSF] reports failure. *)
Theorem synth_creation_failure_silences_engine uninit rSettings rDriver qs path rLoad :
  rSettings ≠ 0 →
  let s := (SynthManager.construct uninit rSettings 0 rDriver).1 in
  SynthManager.synth s = 0
  ∧ last (SynthManager.construct uninit rSettings 0 rDriver).2
    = Some (SynthManager.delete_fluid_settings rSettings)
  ∧ SynthManager.serveAll qs s = (s, [])
  ∧ SynthManager.loadSF path rLoad s = (false, s, []).
Proof.
  intros Hset. cbv zeta. unfold SynthManager.construct.
  destruct (Z.eqb_spec rSettings 0); [done|]. cbn [Z.eqb fst snd].
  split; [done|]. split; [by rewrite last_snoc|].
  split; [by apply serveAll_unavailable|done].
Qed.

Lemma serve_soundfontId q s :
  SynthManager.synth s ≠ 0 →
  SynthManager.synth (SynthManager.serve q s).1 = SynthManager.synth s
  ∧ SynthManager.settings (SynthManager.serve q s).1 = SynthManager.settings s
  ∧ SynthManager.driver (SynthManager.serve q s).1 = SynthManager.driver s
  ∧ SynthManager.soundfontId (SynthManager.serve q s).1
    = SynthManager.lastLoaded [q] (SynthManager.soundfontId s).
Proof.
  intros Hs. destruct q; cbn; try done.
  unfold SynthManager.loadSF.
  destruct (Z.eqb_spec (SynthManager.synth s) 0); [done|].
  by destruct (rLoad =? SynthManager.FLUID_FAILED).
Qed.

Lemma lastLoaded_cons q qs id0 :
  SynthManager.lastLoaded (q :: qs) id0
  = SynthManager.lastLoaded qs (SynthManager.lastLoaded [q] id0).
Proof. by destruct q. Qed.

Lemma serveAll_fields qs s :
  SynthManager.synth s ≠ 0 →
  SynthManager.synth (SynthManager.serveAll qs s).1 = SynthManager.synth s
  ∧ SynthManager.settings (SynthManager.serveAll qs s).1 = SynthManager.settings s
  ∧ SynthManager.driver (SynthManager.serveAll qs s).1 = SynthManager.driver s
  ∧ SynthManager.soundfontId (SynthManager.serveAll qs s).1
    = SynthManager.lastLoaded qs (SynthManager.soundfontId s).
Proof.
  revert s. induction qs as [|q qs IH]; intros s Hs; [done|].
  cbn [SynthManager.serveAll].
  destruct (serve_soundfontId q s Hs) as (Hsy & Hse & Hdr & Hid).
  destruct (SynthManager.serve q s) as [s1 log1]. cbn [fst] in *.
  assert (SynthManager.synth s1 ≠ 0) as Hs1 by congruence.
  destruct (IH s1 Hs1) as (Hsy' & Hse' & Hdr' & Hid').
  destruct (SynthManager.serveAll qs s1) as [s2 log2]. cbn [fst] in *.
  rewrite lastLoaded_cons. repeat split; congruence.
Qed.

Lemma serveAll_unloads_nothing qs s :
  Forall (λ c, SynthManager.unloads c = false) (SynthManager.serveAll qs s).2.
Proof.
  revert s. induction qs as [|q qs IH]; intros s; [by constructor|].
  cbn [SynthManager.serveAll].
  assert (Forall (λ c, SynthManager.unloads c = false) (SynthManager.serve q s).2)
    as Hq.
  { destruct q; cbn;
      unfold SynthManager.loadSF, SynthManager.programChange, SynthManager.noteOn,
        SynthManager.noteOff, SynthManager.reverb, SynthManager.sendCC;
      repeat match goal with |- context [if ?b then _ else _] => destruct b end;
      cbn; rewrite ?Forall_cons, ?Forall_nil; tauto. }
  destruct (SynthManager.serve q s) as [s1 log1].
  specialize (IH s1). destruct (SynthManager.serveAll qs s1) as [s2 log2].
  cbn [snd] in *. by apply Forall_app.
Qed.

Lemma destroy_served qs s :
  SynthManager.synth s ≠ 0 →
  SynthManager.driver s ≠ 0 →
  SynthManager.settings s ≠ 0 →
  SynthManager.destroy (SynthManager.serveAll qs s).1
  = (if SynthManager.lastLoaded qs (SynthManager.soundfontId s) =? -1 then []
     else [SynthManager.fluid_synth_sfunload (SynthManager.synth s)
             (SynthManager.lastLoaded qs (SynthManager.soundfontId s)) 1])
    ++ [SynthManager.delete_fluid_audio_driver (SynthManager.driver s);
        SynthManager.delete_fluid_synth (SynthManager.synth s);
        SynthManager.delete_fluid_settings (SynthManager.settings s)].
Proof.
  intros Hsy Hdr Hse.
  destruct (serveAll_fields qs s Hsy) as (Hsy' & Hse' & Hdr' & Hid).
  unfold SynthManager.destroy. rewrite Hsy', Hse', Hdr', Hid.
  destruct (Z.eqb_spec (SynthManager.synth s) 0); [done|].
  destruct (Z.eqb_spec (SynthManager.driver s) 0); [done|].
  destruct (Z.eqb_spec (SynthManager.settings s) 0); [done|].
  by destruct (_ =? -1).
Qed.

(** X16. Only the last soundfont is unloaded.  With a synth, a driver and
    settings at hand, after any requests the [soundfontId] field is the id of
    the last [loadSF] that FluidSynth did not fail (the old value if there was
    none); no request unloads a soundfont; and the destructor unloads that one
    id, when it is not -1, before it deletes the driver, the synth and the
    settings in this order.  A font loaded earlier is thus never unloaded. *)
Theorem destructor_unloads_last_soundfont qs s :
  SynthManager.synth s ≠ 0 →
  SynthManager.driver s ≠ 0 →
  SynthManager.settings s ≠ 0 →
  let s' := (SynthManager.serveAll qs s).1 in
  let id := SynthManager.lastLoaded qs (SynthManager.soundfontId s) in
  SynthManager.soundfontId s' = id
  ∧ Forall (λ c, SynthManager.unloads c = false) (SynthManager.serveAll qs s).2
  ∧ SynthManager.destroy s'
    = (if id =? -1 then []
       else [SynthManager.fluid_synth_sfunload (SynthManager.synth s) id 1])
      ++ [SynthManager.delete_fluid_audio_driver (SynthManager.driver s);
          SynthManager.delete_fluid_synth (SynthManager.synth s);
          SynthManager.delete_fluid_settings (SynthManager.settings s)].
Proof.
  intros Hsy Hdr Hse. cbv zeta.
  destruct (serveAll_fields qs s Hsy) as (_ & _ & _ & Hid).
  split; [done|]. split; [apply serveAll_unloads_nothing|].
  by apply destroy_served.
Qed.

(** ** Deleted synth handles *)

Lemma neverUsedAfterDelete_app log1 log2 :
  Forall (λ c, SynthManager.deletesSynth c = None) log1 →
  SynthManager.synthNeverUsedAfterDelete log2 →
  SynthManager.synthNeverUsedAfterDelete (log1 ++ log2).
Proof.
  intros Hno Hsafe. induction Hno as [|c log1 Hc _ IH]; [done|].
  cbn. split; [|done]. intros h Hh. congruence.
Qed.

Lemma neverUsedAfterDelete_at log1 c log2 h :
  SynthManager.synthNeverUsedAfterDelete (log1 ++ c :: log2) →
  SynthManager.deletesSynth c = Some h →
  Forall (λ c', SynthManager.usesSynth c' ≠ Some h) log2.
Proof.
  induction log1 as [|c1 log1 IH]; cbn; intros [Hhere Hrest] Hc; auto.
Qed.

Lemma serve_deletes_nothing q s :
  Forall (λ c, SynthManager.deletesSynth c = None) (SynthManager.serve q s).2.
Proof.
  destruct q; cbn;
    unfold SynthManager.loadSF, SynthManager.programChange, SynthManager.noteOn,
      SynthManager.noteOff, SynthManager.reverb, SynthManager.sendCC;
    repeat match goal with |- context [if ?b then _ else _] => destruct b end;
    cbn; rewrite ?Forall_cons, ?Forall_nil; tauto.
Qed.

Lemma serveAll_deletes_nothing qs s :
  Forall (λ c, SynthManager.deletesSynth c = None) (SynthManager.serveAll qs s).2.
Proof.
  revert s. induction qs as [|q qs IH]; intros s; [by constructor|].
  cbn [SynthManager.serveAll].
  pose proof (serve_deletes_nothing q s) as Hq.
  destruct (SynthManager.serve q s) as [s1 log1].
  specialize (IH s1). destruct (SynthManager.serveAll qs s1) as [s2 log2].
  cbn [snd] in *. by apply Forall_app.
Qed.

(** X17. No call on a deleted synth when construction succeeds.  When
    FluidSynth returns three handles to the constructor, then over the whole
    life of the instance (the constructor, any requests of the owner, the
    destructor) no FluidSynth call works on a synth handle that an earlier
    call deleted. *)
Theorem successful_life_never_uses_deleted_synth uninit rSettings rSynth rDriver qs :
  rSettings ≠ 0 → rSynth ≠ 0 → rDriver ≠ 0 →
  let built := SynthManager.construct uninit rSettings rSynth rDriver in
  let served := SynthManager.serveAll qs built.1 in
  SynthManager.synthNeverUsedAfterDelete
    (built.2 ++ served.2 ++ SynthManager.destroy served.1).
Proof.
  intros Hse Hsy Hdr. cbv zeta.
  assert (SynthManager.construct uninit rSettings rSynth rDriver
          = (SynthManager.mk rSettings rSynth rDriver (-1),
             (SynthManager.construct uninit rSettings rSynth rDriver).2)
          ∧ Forall (λ c, SynthManager.deletesSynth c = None)
              (SynthManager.construct uninit rSettings rSynth rDriver).2)
    as [Hbuilt Hlog].
  { unfold SynthManager.construct.
    destruct (Z.eqb_spec rSettings 0); [done|].
    destruct (Z.eqb_spec rSynth 0); [done|].
    destruct (Z.eqb_spec rDriver 0); [done|].
    split; [done|]. cbn. rewrite ?Forall_cons, ?Forall_nil. tauto. }
  apply neverUsedAfterDelete_app; [done|].
  apply neverUsedAfterDelete_app; [apply serveAll_deletes_nothing|].
  rewrite Hbuilt. cbn [fst].
  rewrite (destroy_served qs (SynthManager.mk rSettings rSynth rDriver (-1)))
    by done.
  cbn [SynthManager.synth SynthManager.driver SynthManager.settings].
  destruct (_ =? -1); cbn; rewrite ?Forall_cons, ?Forall_nil;
    repeat split; intros; try done; by repeat constructor.
Qed.

(** X18. A failed audio driver leaves a deleted synth in use.  When
    [new_fluid_audio_driver] returns [nullptr] the constructor deletes the
    synth and the settings but keeps both handles in the fields; a later
    [noteOn] is therefore forwarded to the deleted synth, and the destructor
    deletes the synth and the settings a second time. *)
Theorem driver_failure_keeps_deleted_synth uninit rSettings rSynth chan note velocity :
  rSettings ≠ 0 → rSynth ≠ 0 →
  let built := SynthManager.construct uninit rSettings rSynth 0 in
  SynthManager.delete_fluid_synth rSynth ∈ built.2
  ∧ built.1 = SynthManager.mk rSettings rSynth 0 (-1)
  ∧ SynthManager.noteOn chan note velocity built.1
    = [SynthManager.fluid_synth_noteon rSynth chan note velocity]
  ∧ ¬ SynthManager.synthNeverUsedAfterDelete
        (built.2 ++ SynthManager.noteOn chan note velocity built.1)
  ∧ SynthManager.destroy built.1
    = [SynthManager.delete_fluid_synth rSynth;
       SynthManager.delete_fluid_settings rSettings].
Proof.
  intros Hse Hsy. cbv zeta.
  assert (∃ before,
            SynthManager.construct uninit rSettings rSynth 0
            = (SynthManager.mk rSettings rSynth 0 (-1),
               before ++ [SynthManager.delete_fluid_synth rSynth;
                          SynthManager.delete_fluid_settings rSettings]))
    as [before ->].
  { unfold SynthManager.construct.
    destruct (Z.eqb_spec rSettings 0); [done|].
    destruct (Z.eqb_spec rSynth 0); [done|]. cbn [Z.eqb]. by eexists. }
  cbn [fst snd].
  assert (SynthManager.noteOn chan note velocity
            (SynthManager.mk rSettings rSynth 0 (-1))
          = [SynthManager.fluid_synth_noteon rSynth chan note velocity]) as Hon.
  { unfold SynthManager.noteOn. cbn. by destruct (Z.eqb_spec rSynth 0). }
  split; [set_solver|]. split; [done|]. split; [done|]. split.
  - rewrite Hon, <- app_assoc. intros Hsafe.
    apply (neverUsedAfterDelete_at _ _ _ rSynth) in Hsafe; [|done].
    rewrite !Forall_cons in Hsafe. by destruct Hsafe as (_ & Hbad & _).
  - unfold SynthManager.destroy. cbn.
    destruct (Z.eqb_spec rSynth 0); [done|].
    by destruct (Z.eqb_spec rSettings 0).
Qed.

(** * Properties of the singleton *)





(** * Concrete runs of the further properties *)

Lemma reachable_key60_held : reachable key60_held.
Proof. apply reach_frame, reach_new. Defined.


Lemma other_controllers_forwarded_witness :
  isFrame CaseControl [0xB0; 7; 100] 3
  ∧ data1Of [0xB0; 7; 100] ≠ 64
  ∧ stateAfter (parseMidiData [0xB0; 7; 100] 3) held60_latched62 = held60_latched62
  ∧ engineCalls (logOf (parseMidiData [0xB0; 7; 100] 3) held60_latched62)
    = [if decide (data1Of [0xB0; 7; 100] = 91)
       then SynthReverb (data2Of [0xB0; 7; 100])
       else SynthSendCC (data1Of [0xB0; 7; 100]) (data2Of [0xB0; 7; 100])].
Proof.
  assert (isFrame CaseControl [0xB0; 7; 100] 3) as Hf by frame_facts.
  assert (data1Of [0xB0; 7; 100] ≠ 64) as Hc by (vm_compute; discriminate).
  split; [exact Hf|]. split; [exact Hc|].
  exact (other_controllers_forwarded held60_latched62 [0xB0; 7; 100] 3 Hf Hc).
Defined.


Lemma held_note_never_cut_witness :
  SynthNoteOff 62 ∈ logOf (parseMidiData [0xB0; 64; 0] 3) held60_latched62
  ∧ 62 ∉ playNotes (stateAfter (parseMidiData [0xB0; 64; 0] 3) held60_latched62).
Proof.
  assert (SynthNoteOff 62 ∈ logOf (parseMidiData [0xB0; 64; 0] 3) held60_latched62)
    as Hstop by (apply (bool_decide_unpack _); vm_compute; exact I).
  split; [exact Hstop|].
  exact (held_note_never_cut held60_latched62 [0xB0; 64; 0] 3 62 Hstop).
Defined.

Lemma pedal_up_idempotent_witness :
  isPedalUp [0xB0; 64; 0] 3 ∧ isPedalUp [0xB1; 64; 10] 3
  ∧ (let m1 := stateAfter (parseMidiData [0xB0; 64; 0] 3) held60_latched62 in
     stateAfter (parseMidiData [0xB1; 64; 10] 3) m1 = m1
     ∧ engineCalls (logOf (parseMidiData [0xB1; 64; 10] 3) m1) = []).
Proof.
  assert (isPedalUp [0xB0; 64; 0] 3) as H1 by frame_facts.
  assert (isPedalUp [0xB1; 64; 10] 3) as H2 by frame_facts.
  split; [exact H1|]. split; [exact H2|].
  exact (pedal_up_idempotent held60_latched62
           [0xB0; 64; 0] 3 [0xB1; 64; 10] 3 H1 H2).
Defined.

Lemma pedal_press_release_silent_witness :
  reachable key60_held ∧ sustain key60_held = false
  ∧ isPedalDown [0xB0; 64; 127] 3 ∧ isPedalUp [0xB0; 64; 0] 3
  ∧ (let m1 := stateAfter (parseMidiData [0xB0; 64; 127] 3) key60_held in
     stateAfter (parseMidiData [0xB0; 64; 0] 3) m1 = key60_held
     ∧ engineCalls (logOf (parseMidiData [0xB0; 64; 127] 3) key60_held) = []
     ∧ engineCalls (logOf (parseMidiData [0xB0; 64; 0] 3) m1) = []).
Proof.
  assert (sustain key60_held = false) as Hs by (vm_compute; reflexivity).
  assert (isPedalDown [0xB0; 64; 127] 3) as H1 by frame_facts.
  assert (isPedalUp [0xB0; 64; 0] 3) as H2 by frame_facts.
  split; [exact reachable_key60_held|]. split; [exact Hs|].
  split; [exact H1|]. split; [exact H2|].
  exact (pedal_press_release_silent key60_held [0xB0; 64; 127] 3 [0xB0; 64; 0] 3
           reachable_key60_held Hs H1 H2).
Defined.

Lemma key_stroke_round_trip_witness :
  reachable key60_held ∧ sustain key60_held = false
  ∧ isFrame CaseNoteOn [0x90; 64; 90] 3
  ∧ isFrame CaseNoteOff [0x80; 64; 0] 3
  ∧ data1Of [0x80; 64; 0] = data1Of [0x90; 64; 90]
  ∧ (data1Of [0x90; 64; 90] ∉ playNotes key60_held)
  ∧ (let m1 := stateAfter (parseMidiData [0x90; 64; 90] 3) key60_held in
     stateAfter (parseMidiData [0x80; 64; 0] 3) m1 = key60_held
     ∧ engineCalls (logOf (parseMidiData [0x90; 64; 90] 3) key60_held)
       = [SynthNoteOn (data1Of [0x90; 64; 90]) (data2Of [0x90; 64; 90])]
     ∧ engineCalls (logOf (parseMidiData [0x80; 64; 0] 3) m1)
       = [SynthNoteOff (data1Of [0x90; 64; 90])]).
Proof.
  assert (sustain key60_held = false) as Hs by (vm_compute; reflexivity).
  assert (isFrame CaseNoteOn [0x90; 64; 90] 3) as Hon by frame_facts.
  assert (isFrame CaseNoteOff [0x80; 64; 0] 3) as Hoff by frame_facts.
  assert (data1Of [0x80; 64; 0] = data1Of [0x90; 64; 90]) as Hsame by reflexivity.
  assert (data1Of [0x90; 64; 90] ∉ playNotes key60_held) as Hfree
    by (apply (bool_decide_unpack _); vm_compute; exact I).
  split; [exact reachable_key60_held|]. split; [exact Hs|].
  split; [exact Hon|]. split; [exact Hoff|]. split; [exact Hsame|].
  split; [exact Hfree|].
  exact (key_stroke_round_trip key60_held [0x90; 64; 90] 3 [0x80; 64; 0] 3
           reachable_key60_held Hs Hon Hoff Hsame Hfree).
Defined.

Lemma noteOn_retrigger_witness :
  isFrame CaseNoteOn [0x90; 60; 100] 3
  ∧ isFrame CaseNoteOn [0x92; 60; 30] 3
  ∧ data1Of [0x92; 60; 30] = data1Of [0x90; 60; 100]
  ∧ (let m1 := stateAfter (parseMidiData [0x90; 60; 100] 3) MidiManager_new in
     stateAfter (parseMidiData [0x92; 60; 30] 3) m1 = m1
     ∧ engineCalls (logOf (parseMidiData [0x92; 60; 30] 3) m1)
       = [SynthNoteOn (data1Of [0x90; 60; 100]) (data2Of [0x92; 60; 30])]).
Proof.
  assert (isFrame CaseNoteOn [0x90; 60; 100] 3) as H1 by frame_facts.
  assert (isFrame CaseNoteOn [0x92; 60; 30] 3) as H2 by frame_facts.
  assert (data1Of [0x92; 60; 30] = data1Of [0x90; 60; 100]) as Hsame by reflexivity.
  split; [exact H1|]. split; [exact H2|]. split; [exact Hsame|].
  exact (noteOn_retrigger MidiManager_new [0x90; 60; 100] 3 [0x92; 60; 30] 3
           H1 H2 Hsame).
Defined.


Lemma engine_arguments_are_bytes_witness :
  reachable key60_then_pedal
  ∧ (∀ n, n ∈ playNotes key60_then_pedal ∪ sustainNotes key60_then_pedal → isByte n)
  ∧ Forall byteArgs (logOf (parseMidiData [0x90; 200; 255] 3) key60_then_pedal).
Proof.
  split; [exact reachable_key60_then_pedal|].
  exact (engine_arguments_are_bytes key60_then_pedal [0x90; 200; 255] 3
           reachable_key60_then_pedal).
Defined.

Lemma thread_drops_answer_witness :
  let r := mkReceived 1 1 [0xF8; 60; 100] 3 in
  (numMessagesReceived r ≤ 0
   ∨ opcode r ≠ AMIDI_OPCODE_DATA
   ∨ 0xF0 ≤ byteAt (incomingMessage r) 0 ≤ 0xFF)
  ∧ logOf (loopBody r) key60_held = [Usleep 500]
  ∧ noteState (stateAfter (loopBody r) key60_held) = noteState key60_held.
Proof.
  intros r.
  assert (numMessagesReceived r ≤ 0
          ∨ opcode r ≠ AMIDI_OPCODE_DATA
          ∨ 0xF0 ≤ byteAt (incomingMessage r) 0 ≤ 0xFF) as Hdrop
    by (right; right; vm_compute; split; discriminate).
  split; [exact Hdrop|].
  exact (thread_drops_answer r key60_held Hdrop).
Defined.

Lemma synth_creation_failure_silences_engine_witness :
  (1 : Z) ≠ 0
  ∧ (let uninit := SynthManager.mk 7 8 9 10 in
     let qs := [SynthManager.NoteOn 0 60 100; SynthManager.LoadSF "piano.sf2" 1;
                SynthManager.Reverb 64] in
     let s := (SynthManager.construct uninit 1 0 3).1 in
     SynthManager.synth s = 0
     ∧ last (SynthManager.construct uninit 1 0 3).2
       = Some (SynthManager.delete_fluid_settings 1)
     ∧ SynthManager.serveAll qs s = (s, [])
     ∧ SynthManager.loadSF "piano.sf2" 1 s = (false, s, [])).
Proof.
  assert ((1 : Z) ≠ 0) as Hse by lia.
  split; [exact Hse|].
  exact (synth_creation_failure_silences_engine (SynthManager.mk 7 8 9 10) 1 3
           [SynthManager.NoteOn 0 60 100; SynthManager.LoadSF "piano.sf2" 1;
            SynthManager.Reverb 64] "piano.sf2" 1 Hse).
Defined.

Lemma destructor_unloads_last_soundfont_witness :
  let s := SynthManager.mk 1 2 3 (-1) in
  let qs := [SynthManager.LoadSF "a.sf2" 4; SynthManager.NoteOn 0 60 100;
             SynthManager.LoadSF "b.sf2" 9; SynthManager.LoadSF "c.sf2" (-1)] in
  SynthManager.synth s ≠ 0 ∧ SynthManager.driver s ≠ 0 ∧ SynthManager.settings s ≠ 0
  ∧ SynthManager.lastLoaded qs (SynthManager.soundfontId s) = 9
  ∧ (let s' := (SynthManager.serveAll qs s).1 in
     let id := SynthManager.lastLoaded qs (SynthManager.soundfontId s) in
     SynthManager.soundfontId s' = id
     ∧ Forall (λ c, SynthManager.unloads c = false) (SynthManager.serveAll qs s).2
     ∧ SynthManager.destroy s'
       = (if id =? -1 then []
          else [SynthManager.fluid_synth_sfunload (SynthManager.synth s) id 1])
         ++ [SynthManager.delete_fluid_audio_driver (SynthManager.driver s);
             SynthManager.delete_fluid_synth (SynthManager.synth s);
             SynthManager.delete_fluid_settings (SynthManager.settings s)]).
Proof.
  intros s qs.
  assert (SynthManager.synth s ≠ 0) as Hsy by (cbn; lia).
  assert (SynthManager.driver s ≠ 0) as Hdr by (cbn; lia).
  assert (SynthManager.settings s ≠ 0) as Hse by (cbn; lia).
  split; [exact Hsy|]. split; [exact Hdr|]. split; [exact Hse|].
  split; [reflexivity|].
  exact (destructor_unloads_last_soundfont qs s Hsy Hdr Hse).
Defined.

Lemma successful_life_never_uses_deleted_synth_witness :
  (1 : Z) ≠ 0 ∧ (2 : Z) ≠ 0 ∧ (3 : Z) ≠ 0
  ∧ (let built := SynthManager.construct (SynthManager.mk 7 8 9 10) 1 2 3 in
     let served :=
       SynthManager.serveAll
         [SynthManager.LoadSF "a.sf2" 4; SynthManager.NoteOn 0 60 100;
          SynthManager.NoteOff 0 60] built.1 in
     SynthManager.synthNeverUsedAfterDelete
       (built.2 ++ served.2 ++ SynthManager.destroy served.1)).
Proof.
  assert ((1 : Z) ≠ 0) as H1 by lia.
  assert ((2 : Z) ≠ 0) as H2 by lia.
  assert ((3 : Z) ≠ 0) as H3 by lia.
  split; [exact H1|]. split; [exact H2|]. split; [exact H3|].
  exact (successful_life_never_uses_deleted_synth (SynthManager.mk 7 8 9 10) 1 2 3
           [SynthManager.LoadSF "a.sf2" 4; SynthManager.NoteOn 0 60 100;
            SynthManager.NoteOff 0 60] H1 H2 H3).
Defined.

Lemma driver_failure_keeps_deleted_synth_witness :
  (1 : Z) ≠ 0 ∧ (2 : Z) ≠ 0
  ∧ (let built := SynthManager.construct (SynthManager.mk 7 8 9 10) 1 2 0 in
     SynthManager.delete_fluid_synth 2 ∈ built.2
     ∧ built.1 = SynthManager.mk 1 2 0 (-1)
     ∧ SynthManager.noteOn 0 60 100 built.1
       = [SynthManager.fluid_synth_noteon 2 0 60 100]
     ∧ ¬ SynthManager.synthNeverUsedAfterDelete
           (built.2 ++ SynthManager.noteOn 0 60 100 built.1)
     ∧ SynthManager.destroy built.1
       = [SynthManager.delete_fluid_synth 2; SynthManager.delete_fluid_settings 1]).
Proof.
  assert ((1 : Z) ≠ 0) as H1 by lia.
  assert ((2 : Z) ≠ 0) as H2 by lia.
  split; [exact H1|]. split; [exact H2|].
  exact (driver_failure_keeps_deleted_synth (SynthManager.mk 7 8 9 10) 1 2 0 60 100
           H1 H2).
Defined.

Lemma released_under_pedal_stops_at_pedal_up_witness :
  reachable key60_then_pedal ∧ sustain key60_then_pedal = true
  ∧ isFrame CaseNoteOff [0x80; 60; 0] 3
  ∧ data1Of [0x80; 60; 0] ∈ playNotes key60_then_pedal
  ∧ isPedalUp [0xB0; 64; 0] 3
  ∧ (let n := data1Of [0x80; 60; 0] in
     let m1 := stateAfter (parseMidiData [0x80; 60; 0] 3) key60_then_pedal in
     let m2 := stateAfter (parseMidiData [0xB0; 64; 0] 3) m1 in
     engineCalls (logOf (parseMidiData [0x80; 60; 0] 3) key60_then_pedal) = []
     ∧ noteOffCount n (logOf (parseMidiData [0xB0; 64; 0] 3) m1) = 1%nat
     ∧ n ∉ playNotes m2 ∪ sustainNotes m2).
Proof.
  assert (sustain key60_then_pedal = true) as Hs by (vm_compute; reflexivity).
  assert (isFrame CaseNoteOff [0x80; 60; 0] 3) as Hoff by frame_facts.
  assert (data1Of [0x80; 60; 0] ∈ playNotes key60_then_pedal) as Hheld
    by (apply (bool_decide_unpack _); vm_compute; exact I).
  assert (isPedalUp [0xB0; 64; 0] 3) as Hup by frame_facts.
  split; [exact reachable_key60_then_pedal|]. split; [exact Hs|].
  split; [exact Hoff|]. split; [exact Hheld|]. split; [exact Hup|].
  exact (released_under_pedal_stops_at_pedal_up key60_then_pedal
           [0x80; 60; 0] 3 [0xB0; 64; 0] 3
           reachable_key60_then_pedal Hs Hoff Hheld Hup).
Defined.
